(** * esbuild-plugin-global-api: rule resolution, proxy synthesis and file
      interception

    A shallow embedding of [simplifyGlobalAPI] (the plugin module that carries
    the [lib] option and the platform-conditional rules) and the properties of
    its specification.

    Conventions of the embedding:
    - a JS string is a [string]; a template literal is a chain of [++];
    - a JS object used as a record of entries is an association list in
      [Object.keys] order, written to with [obj_set] (an existing key keeps its
      place, a new key goes last) and read with [obj_get]; keys are expected
      to be identifier-like (no array-index keys, which JS would order first);
    - [undefined] where the code can meet it is [None];
    - a [throw] is the [Throw] case of [result];
    - [console.warn] appends to a list of diagnostics threaded through setup;
    - the catalog module [./global-definitions], Node's [path.parse] and
      [fs.readFile] are collaborators, taken as parameters ([Catalog],
      [Host]). *)

From Stdlib Require Import String Ascii List Bool Arith Lia.
Import ListNotations.
Open Scope list_scope.
Open Scope string_scope.

(** ** Thrown values *)

Inductive JsError : Type :=
| Error (msg : string)        (* [throw new Error(msg)], raised by [die] *)
| TypeError (msg : string)    (* raised by the engine on a bad property read *)
| IOError (msg : string).     (* a rejected [readFile] *)

Inductive result (A : Type) : Type :=
| Ok (a : A)
| Throw (e : JsError).

Arguments Ok {A} a.
Arguments Throw {A} e.

Definition bind {A B : Type} (m : result A) (k : A -> result B) : result B :=
  match m with
  | Ok a => k a
  | Throw e => Throw e
  end.

Notation "x <- m ;; k" := (bind m (fun x => k))
  (at level 61, m at next level, right associativity).

(** [Array.prototype.reduce] with a callback that may throw. *)
Fixpoint reduce {A B : Type} (f : B -> A -> result B) (l : list A) (init : B)
  : result B :=
  match l with
  | [] => Ok init
  | x :: l' => acc <- f init x ;; reduce f l' acc
  end.

(** [Array.prototype.map] with a callback that may throw. *)
Fixpoint map_result {A B : Type} (f : A -> result B) (l : list A)
  : result (list B) :=
  match l with
  | [] => Ok []
  | x :: l' => y <- f x ;; ys <- map_result f l' ;; Ok (y :: ys)
  end.

Definition die {A : Type} (msg : string) : result A := Throw (Error msg).

(** ** Strings *)

(** [hay.includes(needle)] *)
Fixpoint includes (needle hay : string) : bool :=
  if String.prefix needle hay then true
  else match hay with
       | EmptyString => false
       | String _ hay' => includes needle hay'
       end.

(** [parts.join(sep)] *)
Fixpoint join (sep : string) (parts : list string) : string :=
  match parts with
  | [] => ""
  | [p] => p
  | p :: rest => p ++ sep ++ join sep rest
  end.

(** The line feed the template literal of the load handler contains. *)
Definition newline : string := String (ascii_of_nat 10) EmptyString.

(** ** JS objects as ordered entry lists *)

Definition obj (V : Type) : Type := list (string * V).

Definition obj_keys {V : Type} (o : obj V) : list string := map fst o.

Definition obj_entries {V : Type} (o : obj V) : list (string * V) := o.

(** [o[k]] *)
Fixpoint obj_get {V : Type} (k : string) (o : obj V) : option V :=
  match o with
  | [] => None
  | (k', v) :: o' => if String.eqb k k' then Some v else obj_get k o'
  end.

(** [k in o] *)
Definition obj_has {V : Type} (k : string) (o : obj V) : bool :=
  match obj_get k o with Some _ => true | None => false end.

(** [o[k] = v] *)
Fixpoint obj_set {V : Type} (k : string) (v : V) (o : obj V) : obj V :=
  match o with
  | [] => [(k, v)]
  | (k', v') :: o' =>
      if String.eqb k k' then (k', v) :: o' else (k', v') :: obj_set k v o'
  end.

(** [Object.assign(target, source)] *)
Definition obj_assign {V : Type} (target source : obj V) : obj V :=
  fold_left (fun acc kv => obj_set (fst kv) (snd kv) acc) source target.

(** ** Data model ([./global-definitions] types and the plugin's own) *)

Inductive MemberAccessKind : Type :=
| constant
| func
| func_bind
| property.

Inductive MemberNodeType : Type :=
| object
| constructor.

(** [NormalNode]: [{type: "object" | "constructor", members}] or
    [{type: "func"}]. *)
Inductive NormalNode : Type :=
| MemberNode (type : MemberNodeType) (members : obj MemberAccessKind)
| FuncNode.

(** One entry of a platform rule's [diffs]. *)
Inductive PlatformDiff : Type :=
| DiffNoop
| DiffNode (node : NormalNode).

(** [ProxyHandleRule]: ["noop"], a [NormalNode], or
    [{type: "platform", diffs}]. *)
Inductive ProxyHandleRule : Type :=
| Noop
| Normal (node : NormalNode)
| Platform (diffs : obj PlatformDiff).

(** [ProxyNamespaceRuleConfig].  [rule] is required by the type; [cfg_rule]
    is [None] for a caller that leaves it out all the same. *)
Record ProxyNamespaceRuleConfig : Type := {
  cfg_code : option string;
  cfg_rule : option ProxyHandleRule;
  cfg_applyTo : option (string -> bool)
}.

(** [ProxyNamespaceRule].  [patchProxyNamespaceRuleConfig] gives [code] and
    [applyTo] a default and copies [rule] as it is, so [rule] can still be
    [undefined] here. *)
Record ProxyNamespaceRule : Type := {
  code : string;
  rule : option ProxyHandleRule;
  applyTo : string -> bool
}.

Definition ApplyMapping : Type := obj ProxyNamespaceRule.

(** [ApplyRulesConfig<S>]: [S[]] or [ApplyMappingConfig<S>]. *)
Inductive ApplyRulesConfig : Type :=
| NameList (names : list string)
| ConfigMapping (entries : obj ProxyNamespaceRuleConfig).

(** An own property of the options object: the key is missing, or present
    with value [undefined], or present with a value. *)
Inductive field (A : Type) : Type :=
| Absent
| Undefined
| Given (a : A).

Arguments Absent {A}.
Arguments Undefined {A}.
Arguments Given {A} a.

(** [PluginOptions].  [pure] is not a key of the type: it is a key of the
    plugin's earlier interface that callers still pass (tests/run-test.mjs
    passes [pure: false]); [Object.assign] copies it and setup never reads
    it. *)
Record PluginOptions : Type := {
  constructors : field ApplyRulesConfig;
  vars : field ApplyRulesConfig;
  lib : field (obj ProxyNamespaceRule);
  pure : field bool
}.

(** The exports of [./global-definitions] the plugin uses. *)
Record Catalog : Type := {
  isGlobalCtor : string -> bool;
  isGlobalVar : string -> bool;
  globalConstructorWithStatics : string -> ProxyHandleRule;
  globalVars : string -> ProxyHandleRule
}.

(** Node's [path.parse(p).ext] and [fs/promises.readFile]. *)
Record Host : Type := {
  parse_ext : string -> string;
  readFile : string -> result string
}.

(** ** The plugin *)

Inductive Loader : Type := js | jsx | ts | tsx.

(** What the file load handler returns when it does not decline. *)
Record OnLoadResult : Type := {
  contents : string;
  loader : Loader
}.

(** One value of [proxyMapping]. *)
Record ProxyScripts : Type := {
  url : string;
  proxyNamespaceImportsScript : string;
  proxyNamespaceExportsScript : string
}.

Definition ProxyMapping : Type := obj ProxyScripts.

(** What [setup] leaves in the closures of the handlers it registers, and the
    diagnostics it printed. *)
Record Setup : Type := {
  namespaceEntries : list (string * ProxyNamespaceRule);
  proxyMapping : ProxyMapping;
  warnings : list string
}.

(** The options after [Object.assign({}, defaultOptions, options)]. *)
Record MergedOptions : Type := {
  _constructors : option ApplyRulesConfig;
  _vars : option ApplyRulesConfig;
  _lib : option (obj ProxyNamespaceRule)
}.

Definition dquote : string := String (ascii_of_nat 34) EmptyString.

Definition defaultApplyTo (path : string) : bool :=
  negb (includes "node_modules" path).

Definition default_constructors : ApplyRulesConfig := NameList ["Object"].
Definition default_vars : ApplyRulesConfig :=
  NameList ["console"; "JSON"; "Math"; "Reflect"].
Definition default_lib : obj ProxyNamespaceRule := [].

Definition pureComment : string := "/* @__PURE__ */".

Definition pluginName : string := "esbuild-plugin-global-api".
Definition proxyModule : string :=
  "@" ++ pluginName ++ "/do-not-use-in-your-code".
Definition createProxyUrl (namespace : string) : string :=
  proxyModule ++ "-" ++ namespace.

(** A key of the merged options: the later source wins whenever it has the
    key, also when the value there is [undefined]. *)
Definition assign_field {A : Type} (dflt : A) (f : field A) : option A :=
  match f with
  | Absent => Some dflt
  | Undefined => None
  | Given a => Some a
  end.

(** [Object.assign({}, defaultOptions, options)]; a missing [options] is
    skipped by [Object.assign]. *)
Definition merge_options (options : option PluginOptions) : MergedOptions :=
  match options with
  | None =>
      {| _constructors := Some default_constructors;
         _vars := Some default_vars;
         _lib := Some default_lib |}
  | Some o =>
      {| _constructors := assign_field default_constructors (constructors o);
         _vars := assign_field default_vars (vars o);
         _lib := assign_field default_lib (lib o) |}
  end.

(** [!_platform || _platform === "neutral" ? "node" : _platform] *)
Definition active_platform (_platform : option string) : string :=
  match _platform with
  | None => "node"
  | Some p => if (p =? "") || (p =? "neutral") then "node" else p
  end.

(** An object is truthy. *)
Definition truthy (applyRule : ProxyNamespaceRule) : bool := true.

Definition patchProxyNamespaceRuleConfig (config : ProxyNamespaceRuleConfig)
  : ProxyNamespaceRule :=
  {| applyTo := match cfg_applyTo config with
                | Some f => f
                | None => defaultApplyTo
                end;
     code := match cfg_code config with
             | Some c => c
             | None => ""
             end;
     rule := cfg_rule config |}.

(** The object literal the closure [varOnly] stores. *)
Definition varOnly_scripts (namespace code url : string) : ProxyScripts :=
  {| url := url;
     proxyNamespaceImportsScript :=
       "import {" ++ namespace ++ "}from '" ++ url ++ "';";
     proxyNamespaceExportsScript :=
       code ++ "export const " ++ namespace ++ "=" ++ namespace ++ ";" |}.

(** The closure [varOnly] of the [proxyMapping] reducer. *)
Definition varOnly (map : ProxyMapping) (namespace code url : string)
  : ProxyMapping :=
  obj_set namespace (varOnly_scripts namespace code url) map.

(** The callback of [keys.map] in [basic]. *)
Definition member_script (namespace : string) (members : obj MemberAccessKind)
  (member : string) : string :=
  match obj_get member members with
  | Some constant | Some func =>
      "const " ++ member ++ "=" ++ pureComment ++ namespace ++ "." ++ member
        ++ ";"
  | Some func_bind =>
      "const " ++ member ++ "=" ++ pureComment ++ namespace ++ "." ++ member
        ++ ".bind(" ++ namespace ++ ");"
  | _ => ""
  end.

(** The object literal the closure [basic] stores for an object or
    constructor node. *)
Definition member_scripts (namespace code url : string)
  (members : obj MemberAccessKind) : ProxyScripts :=
  let keys := obj_keys members in
  let evalScripts :=
    join "" (List.map (member_script namespace members) keys) in
  {| url := url;
     proxyNamespaceImportsScript :=
       "import * as " ++ namespace ++ " from " ++ dquote ++ url ++ dquote
         ++ ";";
     proxyNamespaceExportsScript :=
       code ++ evalScripts ++ "export {" ++ join "," keys ++ "};" |}.

(** The closure [basic] of the [proxyMapping] reducer. *)
Definition basic (map : ProxyMapping) (namespace code url : string)
  (node : NormalNode) : ProxyMapping :=
  match node with
  | MemberNode _ members =>
      obj_set namespace (member_scripts namespace code url members) map
  | FuncNode => varOnly map namespace code url
  end.

Definition undefined_type_read : JsError :=
  TypeError "Cannot read properties of undefined (reading 'type')".

(** The reducer that builds [proxyMapping]. *)
Definition proxy_step (platform : string) (map : ProxyMapping)
  (entry : string * ProxyNamespaceRule) : result ProxyMapping :=
  let namespace := fst entry in
  let code := code (snd entry) in
  let url := createProxyUrl namespace in
  match rule (snd entry) with
  | None => Throw undefined_type_read
  | Some Noop | Some (Normal FuncNode) => Ok (varOnly map namespace code url)
  | Some (Platform diffs) =>
      match obj_get platform diffs with
      | None => Throw undefined_type_read
      | Some DiffNoop => Ok (varOnly map namespace code url)
      | Some (DiffNode detail) => Ok (basic map namespace code url detail)
      end
  | Some (Normal node) => Ok (basic map namespace code url node)
  end.

Definition scriptExts : list string :=
  [".js"; ".ts"; ".jsx"; ".tsx"; ".cjs"; ".cts"; ".mjs"; ".mts"].

Definition select_loader (ext : string) : Loader :=
  let isTypeScript := includes "t" ext in
  let isReact := includes "x" ext in
  if isTypeScript then (if isReact then tsx else ts)
  else if isReact then jsx else js.

Section Plugin.

Variable catalog : Catalog.
Variable host : Host.

Definition defaultProxyNamespaceRule (name : string)
  : result ProxyNamespaceRule :=
  r <- (if isGlobalCtor catalog name
        then Ok (globalConstructorWithStatics catalog name)
        else if isGlobalVar catalog name
             then Ok (globalVars catalog name)
             else die ("Unknown global name " ++ name)) ;;
  Ok {| code := ""; applyTo := defaultApplyTo; rule := Some r |}.

(** The reducer over a plain list of names; [kind] is the word of the
    diagnostic, [constructor] or [variable]. *)
Definition list_step (kind : string) (st : ApplyMapping * list string)
  (name : string) : result (ApplyMapping * list string) :=
  applyRule <- defaultProxyNamespaceRule name ;;
  if negb (truthy applyRule)
  then
    let message :=
      "Unknown global " ++ kind ++ " " ++ dquote ++ name ++ dquote
        ++ ", ignored." in
    Ok (fst st, List.app (snd st) [message])
  else Ok (obj_set name applyRule (fst st), snd st).

(** The reducer over the entries of a mapping of configs. *)
Definition mapping_step (acc : ApplyMapping)
  (entry : string * ProxyNamespaceRuleConfig) : ApplyMapping :=
  obj_set (fst entry) (patchProxyNamespaceRuleConfig (snd entry)) acc.

(** [Array.isArray(c) ? c.reduce(...) : Object.entries(c).reduce(...)],
    with the diagnostics printed so far. *)
Definition resolve_group (kind : string) (config : option ApplyRulesConfig)
  (printed : list string) : result (ApplyMapping * list string) :=
  match config with
  | Some (NameList names) => reduce (list_step kind) names ([], printed)
  | Some (ConfigMapping entries) =>
      Ok (fold_left mapping_step (obj_entries entries) [], printed)
  | None => Throw (TypeError "Cannot convert undefined or null to object")
  end.

Definition setup (_platform : option string) (options : option PluginOptions)
  : result Setup :=
  let platform := active_platform _platform in
  let merged := merge_options options in
  cw <- resolve_group "constructor" (_constructors merged) [] ;;
  vw <- resolve_group "variable" (_vars merged) (snd cw) ;;
  let lib := match _lib merged with Some l => l | None => [] end in
  let mergedNamespaces :=
    obj_assign (obj_assign (obj_assign [] (fst cw)) (fst vw)) lib in
  let namespaceEntries := obj_entries mergedNamespaces in
  proxyMapping <- reduce (proxy_step platform) namespaceEntries [] ;;
  Ok {| namespaceEntries := namespaceEntries;
        proxyMapping := proxyMapping;
        warnings := snd vw |}.

(** [proxyMapping[namespace].proxyNamespaceImportsScript] *)
Definition import_of (st : Setup) (entry : string * ProxyNamespaceRule)
  : result string :=
  match obj_get (fst entry) (proxyMapping st) with
  | Some scripts => Ok (proxyNamespaceImportsScript scripts)
  | None =>
      Throw (TypeError
        "Cannot read properties of undefined (reading 'proxyNamespaceImportsScript')")
  end.

(** The [onLoad] handler of namespace [file]; [None] is the handler
    returning [undefined]. *)
Definition onLoadFile (st : Setup) (path : string)
  : result (option OnLoadResult) :=
  let matchedNamespaceEntries :=
    filter (fun entry => applyTo (snd entry) path) (namespaceEntries st) in
  if Nat.eqb (List.length matchedNamespaceEntries) 0 then Ok None
  else
    let ext := parse_ext host path in
    if existsb (String.eqb ext) scriptExts
    then
      content <- readFile host path ;;
      let loader := select_loader ext in
      imports <- map_result (import_of st) matchedNamespaceEntries ;;
      Ok (Some {| contents := join "" imports ++ newline ++ content;
                  loader := loader |})
    else Ok None.

End Plugin.

(** ** A small environment for the examples

    The tables of [./global-definitions] are not part of this development;
    the examples run on the few entries below. *)

Definition sampleCtorRule (name : string) : ProxyHandleRule :=
  if name =? "Object"
  then Normal (MemberNode constructor [("keys", func); ("assign", func)])
  else Normal (MemberNode constructor [("isArray", func)]).

Definition sampleVarRule (name : string) : ProxyHandleRule :=
  if name =? "console" then Normal (MemberNode object [("log", func_bind)])
  else if name =? "JSON"
  then Normal (MemberNode object [("parse", func); ("stringify", func)])
  else if name =? "Math"
  then Normal (MemberNode object [("PI", constant); ("abs", func)])
  else Normal (MemberNode object [("ownKeys", func)]).

Definition sampleCatalog : Catalog :=
  {| isGlobalCtor := fun name => existsb (String.eqb name) ["Object"; "Array"];
     isGlobalVar := fun name =>
       existsb (String.eqb name) ["console"; "JSON"; "Math"; "Reflect"];
     globalConstructorWithStatics := sampleCtorRule;
     globalVars := sampleVarRule |}.

(** The part of a file name from its last dot on, when that dot is not the
    first character of the name. *)
Fixpoint last_dot_suffix (s : string) : option string :=
  match s with
  | EmptyString => None
  | String c s' =>
      match last_dot_suffix s' with
      | Some e => Some e
      | None => if Ascii.eqb c "."%char then Some s else None
      end
  end.

Fixpoint basename (s : string) : string :=
  match s with
  | EmptyString => EmptyString
  | String c s' =>
      if includes "/" s' then basename s'
      else if Ascii.eqb c "/"%char then s' else s
  end.

Definition sample_ext (path : string) : string :=
  match basename path with
  | EmptyString => ""
  | String _ rest =>
      match last_dot_suffix rest with
      | Some e => e
      | None => ""
      end
  end.

Definition sampleHost : Host :=
  {| parse_ext := sample_ext;
     readFile := fun _ => Ok "console.log(1);console.log(2);" |}.

(** [lib: { Foo: { rule, code: "", applyTo: defaultApplyTo } }] with no
    constructors and no vars. *)
Definition lib_only (name : string) (r : ProxyHandleRule) : PluginOptions :=
  {| constructors := Given (NameList []);
     vars := Given (NameList []);
     lib := Given [(name, {| code := ""; rule := Some r;
                             applyTo := defaultApplyTo |})];
     pure := Absent |}.

(** [{ type: "object", members: { a: "func", b: "property" } }] *)
Definition rule_with_property : ProxyHandleRule :=
  Normal (MemberNode object [("a", func); ("b", property)]).

(** A resolved entry with the default [applyTo] and no extra code. *)
Definition plain_entry (r : ProxyHandleRule) : ProxyNamespaceRule :=
  {| code := ""; rule := Some r; applyTo := defaultApplyTo |}.

(** [{ type: "platform", diffs: { node: X, browser: "noop" } }] *)
Definition node_or_noop (X : NormalNode) : ProxyHandleRule :=
  Platform [("node", DiffNode X); ("browser", DiffNoop)].

Definition sample_members : obj MemberAccessKind :=
  [("readFile", func); ("cwd", func_bind)].

(** A finished setup with one namespace, for the examples of the load
    handler. *)
Definition console_only : Setup :=
  {| namespaceEntries := [("console", plain_entry (sampleVarRule "console"))];
     proxyMapping :=
       [("console",
         member_scripts "console" "" (createProxyUrl "console")
           [("log", func_bind)])];
     warnings := [] |}.

(** [{ pure: false, constructors: [], vars: [],
       lib: { Foo: { rule: { type: "object", members: { a: "func" } }, ... } } }] *)
Definition pure_off : PluginOptions :=
  {| constructors := Given (NameList []);
     vars := Given (NameList []);
     lib := Given [("Foo", plain_entry (Normal (MemberNode object [("a", func)])))];
     pure := Given false |}.

(** [{ constructors: { [name]: {} }, vars: {} }]: a mapping entry that
    supplies nothing, not even the rule. *)
Definition ruleless_mapping (name : string) : PluginOptions :=
  {| constructors :=
       Given (ConfigMapping
                [(name, {| cfg_code := None; cfg_rule := None;
                           cfg_applyTo := None |})]);
     vars := Given (ConfigMapping []);
     lib := Absent;
     pure := Absent |}.

(** ** Two sentences of the specification, as they are written

    They are stated here to be compared with the code. *)

(** With the [pure] option disabled, no export fragment holds the pure
    hint. *)
Definition pure_hint_follows_option : Prop :=
  forall catalog _platform o st namespace s,
    pure o = Given false ->
    setup catalog _platform (Some o) = Ok st ->
    obj_get namespace (proxyMapping st) = Some s ->
    includes pureComment (proxyNamespaceExportsScript s) = false.

(** Some mapping-form or lib entry names a namespace that the catalog does
    not have and supplies no rule. *)
Definition names_unknown_without_rule (catalog : Catalog) (o : PluginOptions)
  : Prop :=
  exists name,
    isGlobalCtor catalog name = false /\
    isGlobalVar catalog name = false /\
    ((exists entries config,
        (constructors o = Given (ConfigMapping entries) \/
         vars o = Given (ConfigMapping entries)) /\
        In (name, config) entries /\ cfg_rule config = None)
     \/ (exists entries r,
           lib o = Given entries /\ In (name, r) entries /\ rule r = None)).

(** Such an entry makes setup throw a descriptive error (one raised by
    [die]), and setup throws for no other reason. *)
Definition unknown_without_rule_is_the_hard_failure : Prop :=
  forall catalog _platform o,
    (names_unknown_without_rule catalog o ->
     exists msg, setup catalog _platform (Some o) = Throw (Error msg)) /\
    (forall e, setup catalog _platform (Some o) = Throw e ->
               names_unknown_without_rule catalog o).

(** ** The resolve hook and the load hook of the proxy namespace *)

(** [s.replace(pattern, "")] with a string pattern: the first occurrence of
    [pattern] is removed. *)
Fixpoint drop_chars (n : nat) (s : string) : string :=
  match n, s with
  | O, _ => s
  | S n', String _ s' => drop_chars n' s'
  | S _, EmptyString => EmptyString
  end.

Fixpoint remove_first (pattern s : string) : string :=
  if String.prefix pattern s then drop_chars (String.length pattern) s
  else match s with
       | EmptyString => EmptyString
       | String c s' => String c (remove_first pattern s')
       end.

(** The filter [new RegExp(`^${proxyModule}`)]: no character of
    [proxyModule] is special in a regular expression, so the filter accepts
    the paths that start with [proxyModule]. *)
Definition pattern (path : string) : bool := String.prefix proxyModule path.

Record OnResolveResult : Type := {
  resolved_path : string;
  resolved_namespace : string
}.

(** The [onResolve] hook: the callback runs on the paths its filter accepts;
    [None] is the hook not taking the path. *)
Definition onResolve (path : string) : option OnResolveResult :=
  if pattern path
  then Some {| resolved_path := path; resolved_namespace := proxyModule |}
  else None.

(** What the load hook of the proxy namespace returns; [proxy_contents] is
    [None] when the script it read is [undefined]. *)
Record OnLoadProxyResult : Type := {
  proxy_contents : option string;
  proxy_loader : Loader
}.

Section ProxyLoad.

(** [inherited name]: [name] is a property every object literal inherits
    ([toString], [constructor], ...); the operator [in] finds those too. *)
Variable inherited : string -> bool.

(** The callback of the [onLoad] hook of namespace [proxyModule].  An
    inherited property has no [proxyNamespaceExportsScript]. *)
Definition onLoadProxy (st : Setup) (path : string)
  : result OnLoadProxyResult :=
  let variableName := remove_first (proxyModule ++ "-") path in
  if obj_has variableName (proxyMapping st) || inherited variableName
  then
    Ok {| proxy_contents :=
            option_map proxyNamespaceExportsScript
              (obj_get variableName (proxyMapping st));
          proxy_loader := js |}
  else die ("Unexpected matched path: " ++ dquote ++ path ++ dquote).

End ProxyLoad.

(** The own properties of [Object.prototype]. *)
Definition objectPrototypeKeys : list string :=
  ["constructor"; "__defineGetter__"; "__defineSetter__"; "hasOwnProperty";
   "__lookupGetter__"; "__lookupSetter__"; "isPrototypeOf";
   "propertyIsEnumerable"; "toString"; "valueOf"; "__proto__";
   "toLocaleString"].

Definition sampleInherited (name : string) : bool :=
  existsb (String.eqb name) objectPrototypeKeys.

(** [{ vars: { console: { rule: "noop" } }, constructors: {} }] *)
Definition console_noop_mapping : PluginOptions :=
  {| constructors := Given (ConfigMapping []);
     vars := Given (ConfigMapping
                      [("console", {| cfg_code := None;
                                      cfg_rule := Some Noop;
                                      cfg_applyTo := None |})]);
     lib := Absent;
     pure := Absent |}.

(** A host whose [readFile] rejects for one path. *)
Definition failingHost : Host :=
  {| parse_ext := sample_ext;
     readFile := fun path =>
       if path =? "src/missing.ts"
       then Throw (IOError "ENOENT: no such file or directory")
       else Ok "" |}.

(** [{ type: "platform", diffs: { node: { type: "func" } } }]: no diff for
    the browser. *)
Definition node_only_rule : ProxyHandleRule :=
  Platform [("node", DiffNode FuncNode)].

(** ** The earlier plugin module ([index.ts])

    It finds the members to export by reflection on the global object of
    the running engine.  The global object is a parameter here, given by
    what the plugin reads of it. *)

Module Legacy.

(** [bind?: boolean | string[]] *)
Inductive BindOption : Type :=
| BindFlag (b : bool)
| BindNames (names : list string).

(** What the plugin reads of an own property of a value: for a data
    property, whether its value is a function; for an accessor, whether it
    has a getter and a setter. *)
Inductive PropertyDescriptor : Type :=
| DataDescriptor (value_is_function : bool)
| AccessorDescriptor (get set : bool).

(** What the plugin reads of a value: whether it is falsy; otherwise
    whether [typeof] gives [function], and its own property descriptors
    under their string keys, in [for...in] order. *)
Inductive JsValue : Type :=
| Falsy
| Truthy (is_function : bool) (ownProperties : obj PropertyDescriptor).

(** What the plugin reads of the global object: [name in globalContext],
    [globalContext[name]], and the [value] of each own property descriptor
    ([undefined], which is falsy, for an accessor). *)
Record GlobalContext : Type := {
  has_property : string -> bool;
  property : string -> JsValue;
  ownValues : obj JsValue
}.

(** [TargetVariables] *)
Definition TargetVariables : Type := (string * JsValue)%type.

(** [PluginOptions]; [false] for [constructors] or [vars] is [None]. *)
Record PluginOptions : Type := {
  constructors : field (option (list string));
  vars : field (option (list string));
  bind : field BindOption;
  pure : field bool
}.

(** The options after [Object.assign({}, defaultOptions, options)]; the
    outer [None] is [undefined]. *)
Record MergedOptions : Type := {
  _constructors : option (option (list string));
  _vars : option (option (list string));
  _bind : option BindOption;
  _pure : option bool
}.

Definition merge_options (options : option PluginOptions) : MergedOptions :=
  match options with
  | None =>
      {| _constructors := Some None;
         _vars := Some (Some ["console"]);
         _bind := Some (BindFlag true);
         _pure := Some true |}
  | Some o =>
      {| _constructors := assign_field None (constructors o);
         _vars := assign_field (Some ["console"]) (vars o);
         _bind := assign_field (BindFlag true) (bind o);
         _pure := assign_field true (pure o) |}
  end.

(** What [setup] leaves in the closures of its hooks, and what it
    printed. *)
Record Setup : Type := {
  exportVariables : list TargetVariables;
  proxyScripts : obj string;
  proxyImports : string;
  diagnostics : list string
}.

(** What the file load hook returns; the loader is [ext.slice(1)]. *)
Record OnLoadResult : Type := {
  contents : string;
  loader : string
}.

(** [s.match(/^[A-Z]/)] as a truth value *)
Definition constructorPattern (s : string) : bool :=
  match s with
  | EmptyString => false
  | String c _ =>
      (65 <=? nat_of_ascii c)%nat && (nat_of_ascii c <=? 90)%nat
  end.

(** [typeof v === "function"] *)
Definition typeof_function (v : JsValue) : bool :=
  match v with
  | Falsy => false
  | Truthy is_function _ => is_function
  end.

Definition functionProps : list string := ["length"; "name"; "prototype"].

(** The body of the loop of [enumerateNames]. *)
Definition enumerate_step (isFunction : bool) (result : list string)
  (entry : string * PropertyDescriptor) : list string :=
  let key := fst entry in
  if isFunction && existsb (String.eqb key) functionProps then result
  else
    match snd entry with
    | AccessorDescriptor get set =>
        if get || set then result else List.app result [key]
    | DataDescriptor _ => List.app result [key]
    end.

Definition enumerateNames (object : JsValue) : list string :=
  match object with
  | Falsy => []
  | Truthy isFunction ownProperties =>
      fold_left (enumerate_step isFunction) ownProperties []
  end.

(** [typeof value[name] === "function"], for an own property [name] that
    [enumerateNames] returned: an accessor it returns has no getter, and
    reads as [undefined]. *)
Definition member_is_function (value : JsValue) (name : string) : bool :=
  match value with
  | Falsy => false
  | Truthy _ ownProperties =>
      match obj_get name ownProperties with
      | Some (DataDescriptor value_is_function) => value_is_function
      | _ => false
      end
  end.

(** [bind === true || (bind && bind.includes(memberExpression))] *)
Definition binds (bind : option BindOption) (memberExpression : string)
  : bool :=
  match bind with
  | Some (BindFlag b) => b
  | Some (BindNames names) => existsb (String.eqb memberExpression) names
  | None => false
  end.

(** The callback of [names.map] in the [proxyScripts] reducer. *)
Definition export_statement (bind : option BindOption) (pure : option bool)
  (variable : string) (value : JsValue) (name : string) : string :=
  let isFunc := member_is_function value name in
  let memberExpression := variable ++ "." ++ name in
  "export const " ++ name ++ " = " ++
  (match pure with Some true => "/* @__PURE__ */" | _ => "" end) ++ " " ++
  memberExpression ++
  (if isFunc && binds bind memberExpression
   then ".bind(" ++ variable ++ ")" else "").

(** The [proxyScripts] reducer, with what was printed so far. *)
Definition script_step (bind : option BindOption) (pure : option bool)
  (st : obj string * list string) (target : TargetVariables)
  : obj string * list string :=
  let variable := fst target in
  let value := snd target in
  let names := enumerateNames value in
  if Nat.eqb (List.length names) 0
  then
    (fst st,
     List.app (snd st)
       ["Skipped global variable without any enumerable property: "
          ++ variable])
  else
    (obj_set variable
       (join ";" (map (export_statement bind pure variable value) names))
       (fst st),
     snd st).

(** The callback of [exportVariables.map] that gives [proxyImports]. *)
Definition import_statement (target : TargetVariables) : string :=
  "import * as " ++ fst target ++ " from '" ++ proxyModule ++ fst target
    ++ "'".

Section Plugin.

(** The window of a fresh [JSDOM] and the global object of the engine. *)
Variable browserContext : GlobalContext.
Variable nodeContext : GlobalContext.
Variable host : Host.

(** [(platform ?? "node") === "browser"] chooses the window. *)
Definition globalContext (platform : option string) : GlobalContext :=
  match platform with
  | Some p => if p =? "browser" then browserContext else nodeContext
  | None => nodeContext
  end.

(** The reducer over the own property descriptors of the global object. *)
Definition global_step (total : list TargetVariables)
  (entry : string * JsValue) : list TargetVariables :=
  if constructorPattern (fst entry) && typeof_function (snd entry)
  then List.app total [entry]
  else total.

(** The first value of [exportVariables]. *)
Definition constructorVariables (context : GlobalContext)
  (constructors : option (option (list string))) : list TargetVariables :=
  match constructors with
  | Some (Some names) => map (fun v => (v, property context v)) names
  | _ => fold_left global_step (ownValues context) []
  end.

(** The loop over [vars], with what was printed so far. *)
Fixpoint pushVars (context : GlobalContext) (vars : list string)
  (st : list TargetVariables * list string)
  : list TargetVariables * list string :=
  match vars with
  | [] => st
  | variable :: rest =>
      if negb (has_property context variable)
      then pushVars context rest
             (fst st, List.app (snd st) ["Unknown variable: " ++ variable])
      else pushVars context rest
             (List.app (fst st) [(variable, property context variable)],
              snd st)
  end.

(** The warning about [constructors]. *)
Definition constructors_warning
  (constructors : option (option (list string))) : list string :=
  let well_formed :=
    match constructors with
    | Some (Some names) => forallb constructorPattern names
    | _ => false
    end in
  if well_formed then []
  else [dquote ++ "constructors" ++ dquote ++
        " should be an array of all strings starting with upper cases."].

Definition setup (platform : option string) (options : option PluginOptions)
  : Setup :=
  let merged := merge_options options in
  let warned := constructors_warning (_constructors merged) in
  let context := globalContext platform in
  let fromConstructors := constructorVariables context (_constructors merged) in
  let pushed :=
    match _vars merged with
    | Some (Some vars) => pushVars context vars (fromConstructors, warned)
    | _ => (fromConstructors, warned)
    end in
  let scripts :=
    fold_left (script_step (_bind merged) (_pure merged)) (fst pushed)
      ([], snd pushed) in
  {| exportVariables := fst pushed;
     proxyScripts := fst scripts;
     proxyImports := join ";" (map import_statement (fst pushed));
     diagnostics := snd scripts |}.

(** The [onLoad] hook with the filter [/.*/]. *)
Definition onLoadFile (st : Setup) (path : string)
  : result (option OnLoadResult) :=
  let ext := parse_ext host path in
  if existsb (String.eqb ext) [".js"; ".ts"; ".jsx"; ".tsx"]
  then
    content <- readFile host path ;;
    Ok (Some {| contents := proxyImports st ++ ";" ++ newline ++ content;
                loader := drop_chars 1 ext |})
  else Ok None.

(** [inherited name]: [name] is a property every object literal
    inherits. *)
Variable inherited : string -> bool.

(** The [onLoad] hook of namespace [proxyModule]; [None] is the hook
    returning [undefined], and contents [None] a value that is not a
    script (an inherited property). *)
Definition onLoadProxy (st : Setup) (path : string)
  : option OnLoadProxyResult :=
  let variableName := remove_first proxyModule path in
  if obj_has variableName (proxyScripts st) || inherited variableName
  then Some {| proxy_contents := obj_get variableName (proxyScripts st);
               proxy_loader := js |}
  else None.

End Plugin.

End Legacy.

(** A global object with [console], [Object] and a [document] that is
    [undefined]. *)
Definition sampleConsole : Legacy.JsValue :=
  Legacy.Truthy false
    [("log", Legacy.DataDescriptor true);
     ("memory", Legacy.AccessorDescriptor true true)].

Definition sampleObject : Legacy.JsValue :=
  Legacy.Truthy true
    [("length", Legacy.DataDescriptor false);
     ("name", Legacy.DataDescriptor false);
     ("prototype", Legacy.DataDescriptor false);
     ("keys", Legacy.DataDescriptor true)].

Definition sampleContext : Legacy.GlobalContext :=
  {| Legacy.has_property := fun name =>
       existsb (String.eqb name) ["console"; "Object"; "document"];
     Legacy.property := fun name =>
       if name =? "console" then sampleConsole
       else if name =? "Object" then sampleObject
       else Legacy.Falsy;
     Legacy.ownValues :=
       [("console", sampleConsole); ("Object", sampleObject);
        ("document", Legacy.Falsy)] |}.

(** [{ vars: ["console", "document", "nothing"] }] *)
Definition legacy_vars : Legacy.PluginOptions :=
  {| Legacy.constructors := Absent;
     Legacy.vars := Given (Some ["console"; "document"; "nothing"]);
     Legacy.bind := Absent;
     Legacy.pure := Given false |}.

(** [{ constructors: ["Object"], vars: ["console"],
       lib: { Object: { rule: "noop", code: "", applyTo: defaultApplyTo } } }] *)
Definition object_overridden : PluginOptions :=
  {| constructors := Given (NameList ["Object"]);
     vars := Given (NameList ["console"]);
     lib := Given [("Object", plain_entry Noop)];
     pure := Absent |}.

(** * Properties *)

(** ** Strings *)

Lemma str_app_assoc (a b c : string) : (a ++ b) ++ c = a ++ b ++ c.
Proof.
  induction a as [|ch a IH]; simpl; [reflexivity | now rewrite IH].
Qed.

Lemma str_app_nil_r (a : string) : a ++ "" = a.
Proof.
  induction a as [|ch a IH]; simpl; [reflexivity | now rewrite IH].
Qed.

Lemma prefix_app (needle hay : string) :
  String.prefix needle hay = true <-> exists post, hay = needle ++ post.
Proof.
  revert hay.
  induction needle as [|a needle IH]; intros hay.
  - split; [intros _; now exists hay | intros _; now destruct hay].
  - destruct hay as [|b hay]; simpl.
    + split; [discriminate | intros [post H]; discriminate].
    + destruct (ascii_dec a b) as [->|ne].
      * rewrite IH. split; intros [post H]; exists post.
        -- now rewrite H.
        -- now injection H.
      * split; [discriminate | intros [post H]].
        injection H as Hb _. now elim ne.
Qed.

Lemma includes_nil (needle : string) :
  includes needle "" = String.prefix needle "".
Proof.
  unfold includes. now destruct (String.prefix needle "").
Qed.

Lemma includes_cons (needle : string) (c : ascii) (hay : string) :
  includes needle (String c hay) =
  String.prefix needle (String c hay) || includes needle hay.
Proof.
  change (includes needle (String c hay))
    with (if String.prefix needle (String c hay) then true
          else includes needle hay).
  now destruct (String.prefix needle (String c hay)).
Qed.

Lemma includes_spec (needle hay : string) :
  includes needle hay = true <->
  exists pre post, hay = pre ++ needle ++ post.
Proof.
  induction hay as [|c hay IH].
  - rewrite includes_nil, prefix_app. split.
    + intros [post H]. now exists "", post.
    + intros [pre [post H]]. destruct pre; [|discriminate]. now exists post.
  - rewrite includes_cons, orb_true_iff, prefix_app, IH. split.
    + intros [[post H]|[pre [post H]]].
      * now exists "", post.
      * exists (String c pre), post. simpl. now rewrite H.
    + intros [pre [post H]]. destruct pre as [|c' pre]; simpl in H.
      * left. now exists post.
      * right. injection H as _ H. eauto.
Qed.

Lemma includes_app_r (needle a b : string) :
  includes needle b = true -> includes needle (a ++ b) = true.
Proof.
  rewrite !includes_spec. intros [pre [post H]].
  exists (a ++ pre), post. now rewrite H, str_app_assoc.
Qed.

Lemma includes_app_l (needle a b : string) :
  includes needle a = true -> includes needle (a ++ b) = true.
Proof.
  rewrite !includes_spec. intros [pre [post H]].
  exists pre, (post ++ b). now rewrite H, !str_app_assoc.
Qed.

Lemma includes_join_map {A : Type} (f : A -> string) (x : A) (l : list A) :
  In x l -> includes (f x) (join "" (map f l)) = true.
Proof.
  induction l as [|y l IH]; simpl; [tauto|].
  intros [->|Hin].
  - destruct (map f l) eqn:E.
    + apply includes_spec. exists "", "". now rewrite str_app_nil_r.
    + apply includes_app_l, includes_spec. exists "", "".
      now rewrite str_app_nil_r.
  - specialize (IH Hin). destruct (map f l) eqn:E.
    + destruct l; [contradiction | discriminate].
    + now apply includes_app_r.
Qed.

(** ** Objects *)

Lemma obj_get_set_same {V : Type} (k : string) (v : V) (o : obj V) :
  obj_get k (obj_set k v o) = Some v.
Proof.
  induction o as [|[k' v'] o IH]; simpl.
  - now rewrite String.eqb_refl.
  - destruct (k =? k') eqn:E; simpl; rewrite E; [reflexivity | exact IH].
Qed.

Lemma obj_get_set_other {V : Type} (k k' : string) (v : V) (o : obj V) :
  k <> k' -> obj_get k' (obj_set k v o) = obj_get k' o.
Proof.
  intros ne. induction o as [|[k0 v0] o IH]; simpl.
  - destruct (k' =? k) eqn:E; [|reflexivity].
    apply String.eqb_eq in E. congruence.
  - destruct (k =? k0) eqn:E; simpl; [|now rewrite IH].
    apply String.eqb_eq in E. subst k0.
    destruct (k' =? k) eqn:E'; [|reflexivity].
    apply String.eqb_eq in E'. congruence.
Qed.

Lemma obj_keys_set {V : Type} (k : string) (v : V) (o : obj V) :
  obj_keys (obj_set k v o) =
  if obj_has k o then obj_keys o else (obj_keys o ++ [k])%list.
Proof.
  unfold obj_has. induction o as [|[k' v'] o IH]; simpl; [reflexivity|].
  destruct (k =? k') eqn:E; simpl; [reflexivity|].
  rewrite IH. now destruct (obj_get k o).
Qed.

Lemma obj_has_In {V : Type} (k : string) (o : obj V) :
  obj_has k o = true <-> In k (obj_keys o).
Proof.
  unfold obj_has. induction o as [|[k' v'] o IH]; simpl.
  - split; [discriminate | tauto].
  - destruct (k =? k') eqn:E.
    + apply String.eqb_eq in E. subst. tauto.
    + apply String.eqb_neq in E. rewrite IH. split; [tauto|].
      intros [H|H]; [congruence | exact H].
Qed.

Lemma obj_set_NoDup {V : Type} (k : string) (v : V) (o : obj V) :
  NoDup (obj_keys o) -> NoDup (obj_keys (obj_set k v o)).
Proof.
  intros nd. rewrite obj_keys_set.
  destruct (obj_has k o) eqn:E; [exact nd|].
  apply NoDup_app; [exact nd | repeat constructor; simpl; tauto |].
  intros x Hx [<-|[]].
  apply obj_has_In in Hx. congruence.
Qed.

Lemma obj_assign_NoDup {V : Type} (source target : obj V) :
  NoDup (obj_keys target) -> NoDup (obj_keys (obj_assign target source)).
Proof.
  unfold obj_assign. revert target.
  induction source as [|[k v] source IH]; intros target nd; simpl;
    [exact nd|].
  apply IH, obj_set_NoDup, nd.
Qed.

(** ** The [proxyMapping] reducer *)

(** A step either stores, under the entry's name, the scripts it would store
    in an empty map, or throws what it would throw on an empty map. *)
Lemma proxy_step_shape (platform : string) (map : ProxyMapping)
  (entry : string * ProxyNamespaceRule) :
  (exists s, proxy_step platform [] entry = Ok [(fst entry, s)] /\
             proxy_step platform map entry = Ok (obj_set (fst entry) s map))
  \/ (exists e, proxy_step platform [] entry = Throw e /\
                proxy_step platform map entry = Throw e).
Proof.
  unfold proxy_step.
  destruct (rule (snd entry)) as [[|[t members|]|diffs]|];
    try (left; eexists; split; reflexivity);
    try (right; eexists; split; reflexivity).
  destruct (obj_get platform diffs) as [[|[t members|]]|];
    try (left; eexists; split; reflexivity);
    try (right; eexists; split; reflexivity).
Qed.

Lemma reduce_proxy_lookup (platform : string)
  (entries : list (string * ProxyNamespaceRule)) :
  forall init m,
    NoDup (map fst entries) ->
    reduce (proxy_step platform) entries init = Ok m ->
    (forall entry, In entry entries ->
       exists s, proxy_step platform [] entry = Ok [(fst entry, s)] /\
                 obj_get (fst entry) m = Some s) /\
    (forall k, ~ In k (map fst entries) -> obj_get k m = obj_get k init).
Proof.
  induction entries as [|x entries IH]; intros init m nd H; simpl in *.
  - injection H as <-. split; [tauto | reflexivity].
  - inversion nd as [|? ? notin nd']; subst.
    destruct (proxy_step_shape platform init x)
      as [[s [E0 E]]|[e [E0 E]]]; rewrite E in H; simpl in H;
      [|discriminate].
    destruct (IH _ _ nd' H) as [inside outside]. split.
    + intros entry [<-|Hin]; [|now apply inside].
      exists s. split; [exact E0|].
      rewrite (outside _ notin). apply obj_get_set_same.
    + intros k Hk. rewrite outside by tauto.
      apply obj_get_set_other. tauto.
Qed.

(** ** What a finished [setup] went through *)

Lemma setup_inv (catalog : Catalog) (_platform : option string)
  (options : option PluginOptions) (st : Setup) :
  setup catalog _platform options = Ok st ->
  exists cw vw,
    resolve_group catalog "constructor"
      (_constructors (merge_options options)) [] = Ok cw /\
    resolve_group catalog "variable"
      (_vars (merge_options options)) (snd cw) = Ok vw /\
    namespaceEntries st =
      obj_entries
        (obj_assign (obj_assign (obj_assign [] (fst cw)) (fst vw))
           (match _lib (merge_options options) with
            | Some l => l
            | None => []
            end)) /\
    reduce (proxy_step (active_platform _platform)) (namespaceEntries st) []
      = Ok (proxyMapping st) /\
    warnings st = snd vw.
Proof.
  unfold setup. intros H.
  destruct (resolve_group catalog "constructor" _ []) as [cw|] eqn:C;
    simpl in H; [|discriminate].
  destruct (resolve_group catalog "variable" _ (snd cw)) as [vw|] eqn:V;
    simpl in H; [|discriminate].
  destruct (reduce (proxy_step (active_platform _platform)) _ [])
    as [pm|] eqn:R; simpl in H; [|discriminate].
  injection H as <-. exists cw, vw. simpl. auto.
Qed.

Lemma setup_entries_NoDup (catalog : Catalog) (_platform : option string)
  (options : option PluginOptions) (st : Setup) :
  setup catalog _platform options = Ok st ->
  NoDup (map fst (namespaceEntries st)).
Proof.
  intros H. apply setup_inv in H as (cw & vw & _ & _ & E & _).
  rewrite E. unfold obj_entries.
  repeat apply obj_assign_NoDup. constructor.
Qed.

(** Every configured namespace has its scripts in [proxyMapping]: those its
    reducer step computes. *)
Lemma setup_scripts (catalog : Catalog) (_platform : option string)
  (options : option PluginOptions) (st : Setup)
  (entry : string * ProxyNamespaceRule) :
  setup catalog _platform options = Ok st ->
  In entry (namespaceEntries st) ->
  exists s,
    proxy_step (active_platform _platform) [] entry = Ok [(fst entry, s)] /\
    obj_get (fst entry) (proxyMapping st) = Some s.
Proof.
  intros H Hin.
  pose proof (setup_entries_NoDup _ _ _ _ H) as nd.
  apply setup_inv in H as (cw & vw & _ & _ & _ & R & _).
  destruct (reduce_proxy_lookup _ _ _ _ nd R) as [inside _].
  now apply inside.
Qed.

(** ** Variable-only proxies and platform selection *)

(** C6: a namespace whose rule is [noop], or [{type: func}], or a platform
    rule whose diff for the active platform is [noop], gets the variable-only
    proxy: a named import of the namespace from its synthetic module, and an
    export fragment made of the extra code followed by
    [export const Name=Name;]. *)
Theorem variable_only_proxy (catalog : Catalog) (_platform : option string)
  (options : option PluginOptions) (st : Setup) (namespace : string)
  (r : ProxyNamespaceRule) :
  setup catalog _platform options = Ok st ->
  In (namespace, r) (namespaceEntries st) ->
  (rule r = Some Noop \/
   rule r = Some (Normal FuncNode) \/
   exists diffs,
     rule r = Some (Platform diffs) /\
     obj_get (active_platform _platform) diffs = Some DiffNoop) ->
  obj_get namespace (proxyMapping st) =
  Some {| url := createProxyUrl namespace;
          proxyNamespaceImportsScript :=
            "import {" ++ namespace ++ "}from '" ++ createProxyUrl namespace
              ++ "';";
          proxyNamespaceExportsScript :=
            code r ++ "export const " ++ namespace ++ "=" ++ namespace
              ++ ";" |}.
Proof.
  intros H Hin Hrule.
  destruct (setup_scripts _ _ _ _ _ H Hin) as [s [Hstep Hget]].
  simpl in Hget. rewrite Hget. f_equal.
  unfold proxy_step in Hstep. simpl in Hstep.
  destruct Hrule as [E|[E|[diffs [E D]]]]; rewrite E in Hstep;
    try rewrite D in Hstep; now injection Hstep as <-.
Qed.

Lemma variable_only_proxy_witness :
  exists st,
    setup sampleCatalog (Some "browser")
      (Some (lib_only "process" (node_or_noop (MemberNode object sample_members))))
      = Ok st /\
    obj_get "process" (proxyMapping st) =
    Some {| url := "@esbuild-plugin-global-api/do-not-use-in-your-code-process";
            proxyNamespaceImportsScript :=
              "import {process}from '@esbuild-plugin-global-api/do-not-use-in-your-code-process';";
            proxyNamespaceExportsScript :=
              "export const process=process;" |}.
Proof.
  eexists. split; [reflexivity|].
  apply (variable_only_proxy sampleCatalog (Some "browser")
           (Some (lib_only "process"
                    (node_or_noop (MemberNode object sample_members))))
           _ "process"
           (plain_entry (node_or_noop (MemberNode object sample_members)))).
  - reflexivity.
  - left. reflexivity.
  - right. right. eexists. split; reflexivity.
Defined.

Lemma join_concat (sep : string) (parts : list string) :
  join sep parts = String.concat sep parts.
Proof.
  induction parts as [|p parts IH]; simpl; [reflexivity|].
  destruct parts; [reflexivity | now rewrite IH].
Qed.

(** The scripts of a node with members, as text. *)
Lemma member_scripts_text (namespace code url : string)
  (members : obj MemberAccessKind) :
  member_scripts namespace code url members =
  {| url := url;
     proxyNamespaceImportsScript :=
       "import * as " ++ namespace ++ " from " ++ String "034"%char "" ++ url
         ++ String "034"%char "" ++ ";";
     proxyNamespaceExportsScript :=
       code ++
       String.concat ""
         (map (fun member =>
                 match obj_get member members with
                 | Some constant | Some func =>
                     "const " ++ member ++ "=/* @__PURE__ */" ++ namespace
                       ++ "." ++ member ++ ";"
                 | Some func_bind =>
                     "const " ++ member ++ "=/* @__PURE__ */" ++ namespace
                       ++ "." ++ member ++ ".bind(" ++ namespace ++ ");"
                 | _ => ""
                 end)
            (map fst members)) ++
       "export {" ++ String.concat "," (map fst members) ++ "};" |}.
Proof.
  unfold member_scripts. rewrite !join_concat. unfold obj_keys.
  rewrite (map_ext (member_script namespace members)
             (fun member =>
                match obj_get member members with
                | Some constant | Some func =>
                    "const " ++ member ++ "=/* @__PURE__ */" ++ namespace
                      ++ "." ++ member ++ ";"
                | Some func_bind =>
                    "const " ++ member ++ "=/* @__PURE__ */" ++ namespace
                      ++ "." ++ member ++ ".bind(" ++ namespace ++ ");"
                | _ => ""
                end)).
  - reflexivity.
  - intros member. unfold member_script.
    destruct (obj_get member members) as [[| | |]|]; reflexivity.
Qed.

(** C4: a platform-conditional rule is resolved through the diff keyed by
    the active platform, where a platform that is not set, or empty, or
    [neutral], counts as [node].  For the diffs [{node: X, browser: noop}]:
    under [browser] the namespace gets the variable-only proxy, that is
    [import {Name}from '<url>';] and [<code>export const Name=Name;]; with
    no platform set (or [neutral]) it gets what [X] gives: when [X] has
    members, the import [import * as Name from "<url>";] and, after the
    code, one [const] declaration per member that is not a property, in
    the order of the members, then [export {...};] with the member
    names. *)
Theorem platform_selection (catalog : Catalog) (_platform : option string)
  (options : option PluginOptions) (st : Setup) (namespace : string)
  (r : ProxyNamespaceRule) (diffs : obj PlatformDiff) :
  setup catalog _platform options = Ok st ->
  In (namespace, r) (namespaceEntries st) ->
  rule r = Some (Platform diffs) ->
  let url :=
    "@esbuild-plugin-global-api/do-not-use-in-your-code-" ++ namespace in
  let variable_only :=
    {| url := url;
       proxyNamespaceImportsScript :=
         "import {" ++ namespace ++ "}from '" ++ url ++ "';";
       proxyNamespaceExportsScript :=
         code r ++ "export const " ++ namespace ++ "=" ++ namespace ++ ";" |}
  in
  let expansion := fun members : obj MemberAccessKind =>
    {| url := url;
       proxyNamespaceImportsScript :=
         "import * as " ++ namespace ++ " from " ++ String "034"%char ""
           ++ url ++ String "034"%char "" ++ ";";
       proxyNamespaceExportsScript :=
         code r ++
         String.concat ""
           (map (fun member =>
                   match obj_get member members with
                   | Some constant | Some func =>
                       "const " ++ member ++ "=/* @__PURE__ */" ++ namespace
                         ++ "." ++ member ++ ";"
                   | Some func_bind =>
                       "const " ++ member ++ "=/* @__PURE__ */" ++ namespace
                         ++ "." ++ member ++ ".bind(" ++ namespace ++ ");"
                   | _ => ""
                   end)
              (map fst members)) ++
         "export {" ++ String.concat "," (map fst members) ++ "};" |} in
  (exists d,
     obj_get (active_platform _platform) diffs = Some d /\
     obj_get namespace (proxyMapping st) =
     Some match d with
          | DiffNoop | DiffNode FuncNode => variable_only
          | DiffNode (MemberNode _ members) => expansion members
          end) /\
  active_platform None = "node" /\
  active_platform (Some "") = "node" /\
  active_platform (Some "neutral") = "node" /\
  active_platform (Some "node") = "node" /\
  active_platform (Some "browser") = "browser" /\
  (forall X, diffs = [("node", DiffNode X); ("browser", DiffNoop)] ->
     (_platform = Some "browser" ->
      obj_get namespace (proxyMapping st) = Some variable_only) /\
     (_platform = None \/ _platform = Some "neutral" ->
      obj_get namespace (proxyMapping st) =
      Some match X with
           | MemberNode _ members => expansion members
           | FuncNode => variable_only
           end)).
Proof.
  intros H Hin Hrule url variable_only expansion.
  destruct (setup_scripts _ _ _ _ _ H Hin) as [s [Hstep Hget]].
  simpl in Hget.
  unfold proxy_step in Hstep. cbn [fst snd] in Hstep.
  rewrite Hrule in Hstep.
  assert (V : varOnly_scripts namespace (code r) (createProxyUrl namespace)
              = variable_only) by reflexivity.
  assert (E : forall members,
              member_scripts namespace (code r) (createProxyUrl namespace)
                members = expansion members)
    by (intros members; apply member_scripts_text).
  assert (selected : exists d,
     obj_get (active_platform _platform) diffs = Some d /\
     obj_get namespace (proxyMapping st) =
     Some match d with
          | DiffNoop | DiffNode FuncNode => variable_only
          | DiffNode (MemberNode _ members) => expansion members
          end).
  { destruct (obj_get (active_platform _platform) diffs)
      as [[|[t members|]]|]; [| | |discriminate];
      eexists; (split; [reflexivity|]); rewrite Hget;
      unfold basic, varOnly in Hstep; cbn [obj_set] in Hstep;
      injection Hstep as <-; f_equal; auto. }
  split; [exact selected|]. repeat (split; [reflexivity|]).
  intros X ->. destruct selected as [d [D G]]. split.
  - intros ->. simpl in D. injection D as <-. exact G.
  - intros [->| ->]; simpl in D; injection D as <-; rewrite G;
      now destruct X.
Qed.

Lemma platform_selection_witness :
  (exists st,
     setup sampleCatalog None
       (Some (lib_only "process"
                (node_or_noop (MemberNode object sample_members))))
       = Ok st /\
     obj_get "process" (proxyMapping st) =
     Some {| url :=
               "@esbuild-plugin-global-api/do-not-use-in-your-code-process";
             proxyNamespaceImportsScript :=
               "import * as process from " ++ String "034"%char "" ++
               "@esbuild-plugin-global-api/do-not-use-in-your-code-process"
               ++ String "034"%char "" ++ ";";
             proxyNamespaceExportsScript :=
               "const readFile=/* @__PURE__ */process.readFile;const cwd=/* @__PURE__ */process.cwd.bind(process);export {readFile,cwd};" |}) /\
  (exists st,
     setup sampleCatalog (Some "browser")
       (Some (lib_only "process"
                (node_or_noop (MemberNode object sample_members))))
       = Ok st /\
     obj_get "process" (proxyMapping st) =
     Some {| url :=
               "@esbuild-plugin-global-api/do-not-use-in-your-code-process";
             proxyNamespaceImportsScript :=
               "import {process}from '@esbuild-plugin-global-api/do-not-use-in-your-code-process';";
             proxyNamespaceExportsScript :=
               "export const process=process;" |}).
Proof.
  split.
  - eexists. split; [reflexivity|].
    pose proof
      (platform_selection sampleCatalog None
         (Some (lib_only "process"
                  (node_or_noop (MemberNode object sample_members))))
         _ "process"
         (plain_entry (node_or_noop (MemberNode object sample_members)))
         _ eq_refl (or_introl eq_refl) eq_refl) as P.
    cbv zeta in P. destruct P as (_ & _ & _ & _ & _ & _ & P).
    destruct (P _ eq_refl) as [_ Q].
    exact (Q (or_introl eq_refl)).
  - eexists. split; [reflexivity|].
    pose proof
      (platform_selection sampleCatalog (Some "browser")
         (Some (lib_only "process"
                  (node_or_noop (MemberNode object sample_members))))
         _ "process"
         (plain_entry (node_or_noop (MemberNode object sample_members)))
         _ eq_refl (or_introl eq_refl) eq_refl) as P.
    cbv zeta in P. destruct P as (_ & _ & _ & _ & _ & _ & P).
    destruct (P _ eq_refl) as [Q _].
    exact (Q eq_refl).
Defined.

(** ** The file load handler *)

Lemma onLoadFile_unmatched (host : Host) (st : Setup) (path : string) :
  filter (fun entry => applyTo (snd entry) path) (namespaceEntries st) = [] ->
  onLoadFile host st path = Ok None.
Proof.
  intros E. unfold onLoadFile. now rewrite E.
Qed.

Lemma onLoadFile_other_ext (host : Host) (st : Setup) (path : string) :
  existsb (String.eqb (parse_ext host path)) scriptExts = false ->
  onLoadFile host st path = Ok None.
Proof.
  intros E. unfold onLoadFile. rewrite E.
  now destruct (Nat.eqb _ 0).
Qed.

Lemma onLoadFile_inv (host : Host) (st : Setup) (path : string)
  (r : OnLoadResult) :
  onLoadFile host st path = Ok (Some r) ->
  exists content imports,
    filter (fun entry => applyTo (snd entry) path) (namespaceEntries st)
      <> [] /\
    existsb (String.eqb (parse_ext host path)) scriptExts = true /\
    readFile host path = Ok content /\
    map_result (import_of st)
      (filter (fun entry => applyTo (snd entry) path) (namespaceEntries st))
      = Ok imports /\
    r = {| contents := join "" imports ++ newline ++ content;
           loader := select_loader (parse_ext host path) |}.
Proof.
  unfold onLoadFile. intros H.
  destruct (existsb (String.eqb (parse_ext host path)) scriptExts) eqn:X;
    [|destruct (Nat.eqb _ 0) in H; discriminate].
  destruct (filter _ (namespaceEntries st)) as [|e matched] eqn:M;
    simpl in H; [discriminate|].
  destruct (readFile host path) as [content|] eqn:R; simpl in H;
    [|discriminate].
  destruct (import_of st e) as [i|] eqn:I; simpl in H; [|discriminate].
  destruct (map_result (import_of st) matched) as [others|] eqn:Is; simpl in H;
    [|discriminate].
  injection H as <-.
  exists content, (i :: others). simpl. rewrite I. simpl. rewrite Is.
  repeat split; auto. discriminate.
Qed.

Lemma existsb_eqb_In (x : string) (l : list string) :
  existsb (String.eqb x) l = true <-> In x l.
Proof.
  rewrite existsb_exists. split.
  - intros [y [Hin E]]. apply String.eqb_eq in E. now subst.
  - intros Hin. exists x. split; [exact Hin | apply String.eqb_refl].
Qed.

(** C7: a path that the [applyTo] predicate of every configured namespace
    rejects is declined by the file load handler, whatever its extension;
    the default predicate rejects exactly the paths that contain
    [node_modules]. *)
Theorem applyTo_filtering (host : Host) (st : Setup) (path : string) :
  (forall entry, In entry (namespaceEntries st) ->
     applyTo (snd entry) path = false) ->
  onLoadFile host st path = Ok None /\
  (forall p, defaultApplyTo p = false <->
             exists pre post, p = pre ++ "node_modules" ++ post).
Proof.
  intros rejected. split.
  - apply onLoadFile_unmatched.
    induction (namespaceEntries st) as [|e l IH]; simpl; [reflexivity|].
    rewrite (rejected e) by (simpl; auto).
    apply IH. intros entry Hin. apply rejected. simpl. auto.
  - intros p. unfold defaultApplyTo.
    rewrite negb_false_iff. apply includes_spec.
Qed.

Lemma applyTo_filtering_witness :
  onLoadFile sampleHost console_only "node_modules/lodash/index.js" = Ok None.
Proof.
  apply (applyTo_filtering sampleHost console_only
           "node_modules/lodash/index.js").
  intros entry [<-|[]]. vm_compute. reflexivity.
Defined.

(** C8: a path whose extension is not one of the eight script extensions
    ([.json] is not one) is declined by the file load handler, also when
    namespaces match it; a transformed file gets the loader its extension
    selects by the characters [t] and [x], so [.tsx], which contains both,
    gets [tsx]. *)
Theorem extension_gating (host : Host) (st : Setup) (path : string) :
  ~ In (parse_ext host path) scriptExts ->
  onLoadFile host st path = Ok None /\
  ~ In ".json" scriptExts /\
  (forall host' st' path' r,
     onLoadFile host' st' path' = Ok (Some r) ->
     loader r = select_loader (parse_ext host' path') /\
     (parse_ext host' path' = ".tsx" -> loader r = tsx)) /\
  includes "t" ".tsx" = true /\ includes "x" ".tsx" = true /\
  map select_loader scriptExts = [js; ts; jsx; tsx; js; ts; js; ts].
Proof.
  intros other. split; [|split; [|split]].
  - apply onLoadFile_other_ext.
    destruct (existsb (String.eqb (parse_ext host path)) scriptExts) eqn:E;
      [|reflexivity].
    apply existsb_eqb_In in E. contradiction.
  - simpl. intros H. repeat (destruct H as [H|H]; [discriminate|]).
    exact H.
  - intros host' st' path' r H.
    apply onLoadFile_inv in H as (content & imports & _ & _ & _ & _ & ->).
    simpl. split; [reflexivity|]. now intros ->.
  - repeat split; reflexivity.
Qed.

Lemma extension_gating_witness :
  onLoadFile sampleHost console_only "src/data/config.json" = Ok None.
Proof.
  apply (extension_gating sampleHost console_only "src/data/config.json").
  vm_compute. intros H.
  repeat (destruct H as [H|H]; [discriminate|]). exact H.
Defined.

(** ** The merged mapping *)

Lemma obj_has_set {V : Type} (k k' : string) (v : V) (o : obj V) :
  obj_has k' (obj_set k v o) = (k' =? k) || obj_has k' o.
Proof.
  unfold obj_has. destruct (k' =? k) eqn:E.
  - apply String.eqb_eq in E. subst. now rewrite obj_get_set_same.
  - apply String.eqb_neq in E. rewrite obj_get_set_other by congruence.
    reflexivity.
Qed.

Lemma obj_get_None {V : Type} (k : string) (o : obj V) :
  ~ In k (obj_keys o) -> obj_get k o = None.
Proof.
  intros notin. pose proof (obj_has_In k o) as H. unfold obj_has in H.
  destruct (obj_get k o); [|reflexivity].
  elim notin. now apply H.
Qed.

(** A key of the result of [Object.assign] holds the source's value when the
    source has the key, the target's otherwise. *)
Lemma obj_assign_get {V : Type} (k : string) (source : obj V) :
  forall target,
    NoDup (obj_keys source) ->
    obj_get k (obj_assign target source) =
    match obj_get k source with
    | Some v => Some v
    | None => obj_get k target
    end.
Proof.
  unfold obj_assign.
  induction source as [|[k0 v0] source IH]; intros target nd; simpl;
    [reflexivity|].
  inversion nd as [|? ? notin nd']; subst.
  rewrite IH by exact nd'.
  destruct (k =? k0) eqn:E.
  - apply String.eqb_eq in E. subst k0.
    rewrite (obj_get_None _ _ notin). apply obj_get_set_same.
  - apply String.eqb_neq in E.
    rewrite obj_get_set_other by congruence. reflexivity.
Qed.

(** The keys of the result of [Object.assign]: the target's, then the
    source's new ones, each group in its own order. *)
Lemma obj_assign_keys {V : Type} (source : obj V) :
  forall target,
    NoDup (obj_keys source) ->
    obj_keys (obj_assign target source) =
    (obj_keys target ++
     filter (fun k => negb (obj_has k target)) (obj_keys source))%list.
Proof.
  unfold obj_assign.
  induction source as [|[k0 v0] source IH]; intros target nd; simpl.
  - now rewrite app_nil_r.
  - inversion nd as [|? ? notin nd']; subst.
    rewrite IH by exact nd'. rewrite obj_keys_set.
    assert (same : filter (fun k => negb (obj_has k (obj_set k0 v0 target)))
                     (obj_keys source) =
                   filter (fun k => negb (obj_has k target))
                     (obj_keys source)).
    { apply filter_ext_in. intros k Hin. rewrite obj_has_set.
      destruct (k =? k0) eqn:E; [|reflexivity].
      apply String.eqb_eq in E. subst. contradiction. }
    rewrite same.
    destruct (obj_has k0 target); simpl; [reflexivity|].
    now rewrite <- app_assoc.
Qed.

Lemma obj_assign_empty_target {V : Type} (source : obj V) :
  NoDup (obj_keys source) ->
  obj_keys (obj_assign [] source) = obj_keys source /\
  forall k, obj_get k (obj_assign [] source) = obj_get k source.
Proof.
  intros nd. split.
  - rewrite obj_assign_keys by exact nd. simpl. clear nd.
    induction (obj_keys source) as [|k l IH]; simpl; [reflexivity|].
    now rewrite IH.
  - intros k. rewrite obj_assign_get by exact nd.
    now destruct (obj_get k source).
Qed.

Lemma list_step_NoDup (catalog : Catalog) (kind : string)
  (st st' : ApplyMapping * list string) (name : string) :
  list_step catalog kind st name = Ok st' ->
  NoDup (obj_keys (fst st)) -> NoDup (obj_keys (fst st')).
Proof.
  unfold list_step.
  destruct (defaultProxyNamespaceRule catalog name) as [applyRule|]; simpl;
    [|discriminate].
  intros H nd. injection H as <-. simpl. now apply obj_set_NoDup.
Qed.

Lemma resolve_group_NoDup (catalog : Catalog) (kind : string)
  (config : option ApplyRulesConfig) (printed : list string)
  (cw : ApplyMapping * list string) :
  resolve_group catalog kind config printed = Ok cw ->
  NoDup (obj_keys (fst cw)).
Proof.
  destruct config as [[names|entries]|]; simpl; [| |discriminate].
  - assert (gen : forall st, NoDup (obj_keys (fst st)) ->
                    reduce (list_step catalog kind) names st = Ok cw ->
                    NoDup (obj_keys (fst cw))).
    { induction names as [|name names IH]; intros st nd H; simpl in H.
      - now injection H as <-.
      - destruct (list_step catalog kind st name) as [st'|] eqn:E;
          simpl in H; [|discriminate].
        eapply IH; [|exact H]. eapply list_step_NoDup; eauto. }
    apply gen. constructor.
  - intros H. injection H as <-. simpl. unfold obj_entries.
    assert (gen : forall acc : ApplyMapping, NoDup (obj_keys acc) ->
                    NoDup (obj_keys (fold_left (mapping_step) entries acc))).
    { induction entries as [|e entries IH]; intros acc nd; simpl;
        [exact nd|].
      apply IH. unfold mapping_step. now apply obj_set_NoDup. }
    apply gen. constructor.
Qed.

(** The load handler's [map] over the matched entries reads each namespace's
    import fragment from [proxyMapping]. *)
Lemma map_result_import_of (st : Setup)
  (matched : list (string * ProxyNamespaceRule)) (fragments : list string) :
  map_result (import_of st) matched = Ok fragments ->
  map Some fragments =
  map (fun entry =>
         option_map proxyNamespaceImportsScript
           (obj_get (fst entry) (proxyMapping st)))
    matched.
Proof.
  revert fragments.
  induction matched as [|e matched IH]; intros fragments H; simpl in H.
  - now injection H as <-.
  - unfold import_of at 1 in H.
    destruct (obj_get (fst e) (proxyMapping st)) as [s|] eqn:G; simpl in H;
      [|discriminate].
    destruct (map_result (import_of st) matched) as [others|]; simpl in H;
      [|discriminate].
    injection H as <-. simpl. rewrite G. simpl. f_equal. now apply IH.
Qed.

Lemma map_result_import_of_total (st : Setup)
  (matched : list (string * ProxyNamespaceRule)) :
  (forall entry, In entry matched ->
     exists s, obj_get (fst entry) (proxyMapping st) = Some s) ->
  exists fragments, map_result (import_of st) matched = Ok fragments.
Proof.
  induction matched as [|e matched IH]; intros found; simpl.
  - now exists [].
  - destruct (found e) as [s G]; [simpl; auto|].
    destruct IH as [others E]; [intros; apply found; simpl; auto|].
    unfold import_of at 1. rewrite G. simpl. rewrite E. simpl. eauto.
Qed.

(** Once setup has finished, the load handler finds the scripts of every
    matched namespace: a file with a script extension that some namespace
    matches and that can be read is transformed. *)
Lemma onLoadFile_transforms (catalog : Catalog) (host : Host)
  (_platform : option string) (options : option PluginOptions) (st : Setup)
  (path content : string) :
  setup catalog _platform options = Ok st ->
  filter (fun entry => applyTo (snd entry) path) (namespaceEntries st) <> [] ->
  In (parse_ext host path) scriptExts ->
  readFile host path = Ok content ->
  exists r, onLoadFile host st path = Ok (Some r).
Proof.
  intros H M X R. unfold onLoadFile.
  apply existsb_eqb_In in X. rewrite X, R.
  destruct (map_result_import_of_total st
              (filter (fun entry => applyTo (snd entry) path)
                 (namespaceEntries st))) as [fragments E].
  { intros entry Hin. apply filter_In in Hin as [Hin _].
    destruct (setup_scripts _ _ _ _ _ H Hin) as [s [_ G]]. eauto. }
  rewrite E.
  destruct (filter _ (namespaceEntries st)); [contradiction|].
  simpl. eauto.
Qed.

(** C9: the contents of a transformed file are the import fragments of the
    matched namespaces, one after the other with nothing between them, in
    the order of the merged mapping, then one line feed, then the file's
    contents as read.  The merged mapping lists the constructor entries,
    then the new variable entries, then the new lib entries, and a name
    configured in several groups has the rule of the last of them (no
    group having a key [__proto__], which an object does not keep as an
    entry). *)
Theorem transformed_contents (catalog : Catalog) (host : Host)
  (_platform : option string) (options : option PluginOptions) (st : Setup)
  (path : string) (r : OnLoadResult) :
  setup catalog _platform options = Ok st ->
  onLoadFile host st path = Ok (Some r) ->
  (exists content fragments,
     readFile host path = Ok content /\
     map Some fragments =
     map (fun entry =>
            option_map proxyNamespaceImportsScript
              (obj_get (fst entry) (proxyMapping st)))
       (filter (fun entry => applyTo (snd entry) path)
          (namespaceEntries st)) /\
     contents r =
     String.concat "" fragments ++ String "010"%char "" ++ content) /\
  (exists cw vw,
     resolve_group catalog "constructor"
       (_constructors (merge_options options)) [] = Ok cw /\
     resolve_group catalog "variable"
       (_vars (merge_options options)) (snd cw) = Ok vw /\
     let lib :=
       match _lib (merge_options options) with Some l => l | None => [] end in
     (NoDup (map fst lib) ->
      ~ In "__proto__" (map fst (namespaceEntries st)) ->
      map fst (namespaceEntries st) =
      (map fst (fst cw) ++
       filter (fun k => negb (existsb (String.eqb k) (map fst (fst cw))))
         (map fst (fst vw)) ++
       filter (fun k =>
                 negb (existsb (String.eqb k) (map fst (fst cw)) ||
                       existsb (String.eqb k) (map fst (fst vw))))
         (map fst lib))%list /\
      forall namespace,
        obj_get namespace (namespaceEntries st) =
        match obj_get namespace lib with
        | Some rule_of_lib => Some rule_of_lib
        | None =>
            match obj_get namespace (fst vw) with
            | Some rule_of_vars => Some rule_of_vars
            | None => obj_get namespace (fst cw)
            end
        end)) /\
  (forall path' content',
     filter (fun entry => applyTo (snd entry) path') (namespaceEntries st)
       <> [] ->
     In (parse_ext host path') scriptExts ->
     readFile host path' = Ok content' ->
     exists r', onLoadFile host st path' = Ok (Some r')).
Proof.
  intros H L. split; [|split].
  - apply onLoadFile_inv in L
      as (content & fragments & _ & _ & R & F & ->).
    exists content, fragments. simpl.
    rewrite join_concat.
    repeat split; auto using map_result_import_of.
  - destruct (setup_inv _ _ _ _ H) as (cw & vw & C & V & E & _).
    exists cw, vw. split; [exact C|]. split; [exact V|].
    intros lib ndl _. fold lib in E. unfold obj_entries in E.
    pose proof (resolve_group_NoDup _ _ _ _ _ C) as ndc.
    pose proof (resolve_group_NoDup _ _ _ _ _ V) as ndv.
    destruct (obj_assign_empty_target (fst cw) ndc) as [Kc Gc].
    assert (has_eq : forall (V : Type) k (o : obj V),
              obj_has k o = existsb (String.eqb k) (map fst o)).
    { intros V0 k o. destruct (obj_has k o) eqn:Has.
      - symmetry. apply existsb_eqb_In. now apply obj_has_In.
      - destruct (existsb (String.eqb k) (map fst o)) eqn:Ex;
          [|reflexivity].
        apply existsb_eqb_In, obj_has_In in Ex. congruence. }
    assert (has_cv : forall k,
              obj_has k (obj_assign (obj_assign [] (fst cw)) (fst vw)) =
              obj_has k (fst cw) || obj_has k (fst vw)).
    { intros k. unfold obj_has.
      rewrite obj_assign_get, Gc by exact ndv.
      destruct (obj_get k (fst vw)), (obj_get k (fst cw)); reflexivity. }
    assert (has_c : forall k,
              obj_has k (obj_assign [] (fst cw)) = obj_has k (fst cw)).
    { intros k. unfold obj_has. now rewrite Gc. }
    rewrite E. split.
    + change (map fst (obj_assign (obj_assign (obj_assign [] (fst cw))
                                     (fst vw)) lib))
        with (obj_keys (obj_assign (obj_assign (obj_assign [] (fst cw))
                                      (fst vw)) lib)).
      rewrite obj_assign_keys by exact ndl.
      rewrite obj_assign_keys by exact ndv.
      rewrite Kc, <- app_assoc. unfold obj_keys. f_equal. f_equal.
      * apply filter_ext. intros k. now rewrite has_c, has_eq.
      * apply filter_ext. intros k. now rewrite has_cv, !has_eq.
    + intros namespace.
      rewrite obj_assign_get by exact ndl.
      rewrite obj_assign_get by exact ndv.
      now rewrite Gc.
  - intros path' content'.
    now apply (onLoadFile_transforms catalog _ _platform options).
Qed.

Lemma transformed_contents_witness :
  exists st r,
    setup sampleCatalog None (Some object_overridden) = Ok st /\
    onLoadFile sampleHost st "src/app.tsx" = Ok (Some r) /\
    contents r =
      "import {Object}from '@esbuild-plugin-global-api/do-not-use-in-your-code-Object';import * as console from "
      ++ String "034"%char "" ++
      "@esbuild-plugin-global-api/do-not-use-in-your-code-console"
      ++ String "034"%char "" ++ ";" ++ String "010"%char "" ++
      "console.log(1);console.log(2);" /\
    map fst (namespaceEntries st) = ["Object"; "console"].
Proof.
  eexists. eexists. split; [reflexivity|]. split; [vm_compute; reflexivity|].
  destruct (transformed_contents sampleCatalog sampleHost None
              (Some object_overridden) _ "src/app.tsx" _ eq_refl eq_refl)
    as [(content & fragments & R & F & C) [(cw & vw & RC & RV & K) _]].
  split.
  - etransitivity; [exact C|].
    vm_compute in R. injection R as <-.
    vm_compute in F.
    destruct fragments as [|f1 [|f2 [|f3 fragments]]]; try discriminate F.
    injection F as -> ->. vm_compute. reflexivity.
  - cbv zeta in K. destruct K as [keys _].
    + repeat constructor. simpl. tauto.
    + vm_compute. intros [P|[P|[]]]; discriminate P.
    + rewrite keys. clear keys.
      simpl in RC. injection RC as <-. simpl in RV. injection RV as <-.
      vm_compute. reflexivity.
Defined.

(** ** Options *)

(** C10: a [constructors] or [vars] key that is present with the value
    [undefined] is not replaced by its default: the merge keeps [undefined]
    and setup throws.  A key that is missing takes the default: the merged
    options then hold [["Object"]] for [constructors] and
    [["console", "JSON", "Math", "Reflect"]] for [vars], and setup runs as
    if that list had been given. *)
Theorem explicit_undefined_not_defaulted (catalog : Catalog)
  (_platform : option string) (o : PluginOptions) :
  constructors o = Undefined \/ vars o = Undefined ->
  (exists e, setup catalog _platform (Some o) = Throw e) /\
  (constructors o = Undefined ->
   _constructors (merge_options (Some o)) = None /\
   setup catalog _platform (Some o) =
   Throw (TypeError "Cannot convert undefined or null to object")) /\
  (vars o = Undefined -> _vars (merge_options (Some o)) = None) /\
  (forall o', constructors o' = Absent ->
     _constructors (merge_options (Some o')) = Some (NameList ["Object"]) /\
     setup catalog _platform (Some o') =
     setup catalog _platform
       (Some {| constructors := Given (NameList ["Object"]);
                vars := vars o'; lib := lib o'; pure := pure o' |})) /\
  (forall o', vars o' = Absent ->
     _vars (merge_options (Some o')) =
       Some (NameList ["console"; "JSON"; "Math"; "Reflect"]) /\
     setup catalog _platform (Some o') =
     setup catalog _platform
       (Some {| constructors := constructors o';
                vars := Given (NameList ["console"; "JSON"; "Math"; "Reflect"]);
                lib := lib o'; pure := pure o' |})) /\
  (forall o' given,
     (constructors o' = Given given ->
      _constructors (merge_options (Some o')) = Some given) /\
     (vars o' = Given given ->
      _vars (merge_options (Some o')) = Some given)) /\
  _constructors (merge_options None) = Some (NameList ["Object"]) /\
  _vars (merge_options None) =
    Some (NameList ["console"; "JSON"; "Math"; "Reflect"]).
Proof.
  intros U.
  split; [|split; [|split; [|split; [|split; [|split; [|split]]]]]].
  - unfold setup, merge_options. simpl. destruct U as [E|E]; rewrite E; simpl.
    + eauto.
    + destruct (resolve_group catalog "constructor" _ []); simpl; eauto.
  - intros E. unfold setup, merge_options. simpl. now rewrite E.
  - intros E. unfold merge_options. simpl. now rewrite E.
  - intros o' E. unfold setup, merge_options. simpl. now rewrite E.
  - intros o' E. unfold setup, merge_options. simpl. now rewrite E.
  - intros o' given. unfold merge_options. simpl.
    split; intros E; now rewrite E.
  - reflexivity.
  - reflexivity.
Qed.

Lemma explicit_undefined_not_defaulted_witness :
  (exists e,
     setup sampleCatalog None
       (Some {| constructors := Absent; vars := Undefined; lib := Absent;
                pure := Absent |}) = Throw e) /\
  _vars
    (merge_options
       (Some {| constructors := Absent; vars := Undefined; lib := Absent;
                pure := Absent |})) = None /\
  _constructors
    (merge_options
       (Some {| constructors := Absent; vars := Undefined; lib := Absent;
                pure := Absent |})) = Some (NameList ["Object"]) /\
  _vars
    (merge_options
       (Some {| constructors := Absent; vars := Absent; lib := Absent;
                pure := Absent |})) =
    Some (NameList ["console"; "JSON"; "Math"; "Reflect"]) /\
  exists st,
    setup sampleCatalog None
      (Some {| constructors := Absent; vars := Given (NameList []);
               lib := Absent; pure := Absent |}) = Ok st /\
    map fst (namespaceEntries st) = ["Object"].
Proof.
  destruct (explicit_undefined_not_defaulted sampleCatalog None
              {| constructors := Absent; vars := Undefined; lib := Absent;
                 pure := Absent |} (or_intror eq_refl))
    as (T & _ & V & C & D & _).
  split; [exact T|]. split; [exact (V eq_refl)|]. split; [|split].
  - exact (proj1 (C {| constructors := Absent; vars := Undefined;
                       lib := Absent; pure := Absent |} eq_refl)).
  - exact (proj1 (D {| constructors := Absent; vars := Absent;
                       lib := Absent; pure := Absent |} eq_refl)).
  - rewrite (proj2 (C {| constructors := Absent; vars := Given (NameList []);
                         lib := Absent; pure := Absent |} eq_refl)).
    eexists. split; reflexivity.
Defined.

(** ** Plain lists of names *)

Lemma list_step_unknown (catalog : Catalog) (kind : string)
  (st : ApplyMapping * list string) (name : string) :
  isGlobalCtor catalog name = false ->
  isGlobalVar catalog name = false ->
  list_step catalog kind st name = Throw (Error ("Unknown global name " ++ name)).
Proof.
  intros C V. unfold list_step, defaultProxyNamespaceRule.
  now rewrite C, V.
Qed.

(** A step of the reducer over a list of names never takes the branch that
    prints the diagnostic: it throws or stores the catalog's rule. *)
Lemma list_step_cases (catalog : Catalog) (kind : string)
  (st : ApplyMapping * list string) (name : string) :
  list_step catalog kind st name = Throw (Error ("Unknown global name " ++ name))
  \/ exists applyRule,
       list_step catalog kind st name =
       Ok (obj_set name applyRule (fst st), snd st).
Proof.
  unfold list_step, defaultProxyNamespaceRule.
  destruct (isGlobalCtor catalog name); simpl; eauto.
  destruct (isGlobalVar catalog name); simpl; eauto.
Qed.

Lemma reduce_list_unknown (catalog : Catalog) (kind : string)
  (names : list string) (name : string) :
  In name names ->
  isGlobalCtor catalog name = false ->
  isGlobalVar catalog name = false ->
  forall st, exists unknown,
    In unknown names /\
    reduce (list_step catalog kind) names st =
    Throw (Error ("Unknown global name " ++ unknown)).
Proof.
  intros Hin C V.
  induction names as [|x names IH]; intros st; simpl in *; [contradiction|].
  destruct (list_step_cases catalog kind st x) as [E|[applyRule E]].
  - exists x. rewrite E. auto.
  - destruct Hin as [->|Hin].
    + rewrite (list_step_unknown catalog kind st name C V) in E.
      discriminate.
    + rewrite E. simpl.
      destruct (IH Hin (obj_set x applyRule (fst st), snd st))
        as [unknown [Hu Hr]].
      exists unknown. auto.
Qed.

Lemma reduce_list_prints_nothing (catalog : Catalog) (kind : string)
  (names : list string) :
  forall st st',
    reduce (list_step catalog kind) names st = Ok st' -> snd st' = snd st.
Proof.
  induction names as [|x names IH]; intros st st' H; simpl in H.
  - now injection H as <-.
  - destruct (list_step_cases catalog kind st x) as [E|[applyRule E]];
      rewrite E in H; simpl in H; [discriminate|].
    now rewrite (IH _ _ H).
Qed.

(** No run of setup prints a diagnostic. *)
Lemma setup_prints_nothing (catalog : Catalog) (_platform : option string)
  (options : option PluginOptions) (st : Setup) :
  setup catalog _platform options = Ok st -> warnings st = [].
Proof.
  intros H. apply setup_inv in H as (cw & vw & C & V & _ & _ & ->).
  assert (same : forall kind config printed xw,
            resolve_group catalog kind config printed = Ok xw ->
            snd xw = printed).
  { intros kind [[names|entries]|] printed xw R; simpl in R;
      [| |discriminate].
    - now apply reduce_list_prints_nothing in R.
    - now injection R as <-. }
  rewrite (same _ _ _ _ V). exact (same _ _ _ _ C).
Qed.

(** A plain list that holds a name the catalog does not know makes setup
    throw. *)
Lemma unknown_list_name_throws (catalog : Catalog) (_platform : option string)
  (o : PluginOptions) (names : list string) (name : string) :
  constructors o = Given (NameList names) \/ vars o = Given (NameList names) ->
  In name names ->
  isGlobalCtor catalog name = false ->
  isGlobalVar catalog name = false ->
  exists e, setup catalog _platform (Some o) = Throw e.
Proof.
  intros [E|E] Hin C V; unfold setup, merge_options; simpl; rewrite E; simpl.
  - destruct (reduce_list_unknown catalog "constructor" names name Hin C V
                ([], [])) as [unknown [_ R]].
    rewrite R. simpl. eauto.
  - destruct (resolve_group catalog "constructor" _ []) as [cw|]; simpl;
      [|eauto].
    destruct (reduce_list_unknown catalog "variable" names name Hin C V
                ([], snd cw)) as [unknown [_ R]].
    rewrite R. simpl. eauto.
Qed.

(** C2 (what the code does): with [constructors: ["Object", "Foo"]], or with
    [vars: ["Foo"]], where [Foo] is not in the catalog, setup throws
    [Error("Unknown global name Foo")]; the name is not skipped and no
    diagnostic is printed.  The same holds for every catalog and every
    unknown name of a plain list. *)
Theorem unknown_list_name_aborts_setup :
  setup sampleCatalog None
    (Some {| constructors := Given (NameList ["Object"; "Foo"]);
             vars := Absent; lib := Absent; pure := Absent |})
  = Throw (Error "Unknown global name Foo") /\
  setup sampleCatalog None
    (Some {| constructors := Absent; vars := Given (NameList ["Foo"]);
             lib := Absent; pure := Absent |})
  = Throw (Error "Unknown global name Foo") /\
  (forall catalog _platform o names name,
     constructors o = Given (NameList names) \/
     vars o = Given (NameList names) ->
     In name names ->
     isGlobalCtor catalog name = false ->
     isGlobalVar catalog name = false ->
     exists e, setup catalog _platform (Some o) = Throw e) /\
  (forall catalog _platform options st,
     setup catalog _platform options = Ok st -> warnings st = []).
Proof.
  split; [reflexivity|]. split; [reflexivity|]. split.
  - exact unknown_list_name_throws.
  - exact setup_prints_nothing.
Qed.

(** ** Member expansion *)

Lemma includes_trans (a b c : string) :
  includes a b = true -> includes b c = true -> includes a c = true.
Proof.
  rewrite !includes_spec. intros [p1 [q1 ->]] [p2 [q2 ->]].
  exists (p2 ++ p1), (q1 ++ q2). now rewrite !str_app_assoc.
Qed.

Lemma includes_head (a b : string) : includes a (a ++ b) = true.
Proof.
  apply includes_spec. now exists "", b.
Qed.

Lemma includes_join_In (sep x : string) (l : list string) :
  In x l -> includes x (join sep l) = true.
Proof.
  induction l as [|y l IH]; simpl; [tauto|].
  intros [->|Hin].
  - destruct l; [|apply includes_head].
    apply includes_spec. exists "", "". now rewrite str_app_nil_r.
  - specialize (IH Hin). destruct l as [|z l]; [contradiction|].
    now apply includes_app_r, includes_app_r.
Qed.

(** The scripts of a namespace whose rule resolves to a node with members,
    directly or through the diff of the active platform. *)
Lemma member_expansion (catalog : Catalog) (_platform : option string)
  (options : option PluginOptions) (st : Setup) (namespace : string)
  (r : ProxyNamespaceRule) (t : MemberNodeType)
  (members : obj MemberAccessKind) :
  setup catalog _platform options = Ok st ->
  In (namespace, r) (namespaceEntries st) ->
  (rule r = Some (Normal (MemberNode t members)) \/
   exists diffs,
     rule r = Some (Platform diffs) /\
     obj_get (active_platform _platform) diffs =
     Some (DiffNode (MemberNode t members))) ->
  obj_get namespace (proxyMapping st) =
  Some (member_scripts namespace (code r) (createProxyUrl namespace) members).
Proof.
  intros H Hin Hrule.
  destruct (setup_scripts _ _ _ _ _ H Hin) as [s [Hstep Hget]].
  simpl in Hget. rewrite Hget. f_equal.
  unfold proxy_step in Hstep. simpl in Hstep.
  destruct Hrule as [E|[diffs [E D]]]; rewrite E in Hstep;
    try rewrite D in Hstep; now injection Hstep as <-.
Qed.

(** A member of kind [property] gets no declaration, and its name is in the
    export statement all the same, which lists every key of [members]. *)
Lemma property_member_exported (catalog : Catalog) (_platform : option string)
  (options : option PluginOptions) (st : Setup) (namespace : string)
  (r : ProxyNamespaceRule) (t : MemberNodeType)
  (members : obj MemberAccessKind) (member : string) :
  setup catalog _platform options = Ok st ->
  In (namespace, r) (namespaceEntries st) ->
  rule r = Some (Normal (MemberNode t members)) ->
  obj_get member members = Some property ->
  member_script namespace members member = "" /\
  exists s,
    obj_get namespace (proxyMapping st) = Some s /\
    proxyNamespaceExportsScript s =
      code r ++
      join "" (map (member_script namespace members) (obj_keys members)) ++
      "export {" ++ join "," (obj_keys members) ++ "};" /\
    In member (obj_keys members) /\
    includes member (proxyNamespaceExportsScript s) = true.
Proof.
  intros H Hin Hrule Hm. split.
  - unfold member_script. now rewrite Hm.
  - assert (K : In member (obj_keys members)).
    { apply obj_has_In. unfold obj_has. now rewrite Hm. }
    eexists. split; [|split; [|split]].
    + apply (member_expansion catalog _platform options st namespace r t);
        [exact H | exact Hin | left; exact Hrule].
    + reflexivity.
    + exact K.
    + unfold member_scripts. cbn [proxyNamespaceExportsScript].
      apply includes_app_r, includes_app_r, includes_app_r.
      apply includes_app_l. now apply includes_join_In.
Qed.

(** C1 (what the code does): for
    [lib: { Foo: { rule: { type: "object", members: { a: "func", b: "property" } } } }]
    the export fragment is [const a=/* @__PURE__ */Foo.a;export {a,b};]:
    the member [b] of kind [property] has no declaration and is listed in the
    export statement.  In general the export statement lists every key of
    [members], the keys of kind [property] too. *)
Theorem property_member_listed_in_export :
  (exists st,
     setup sampleCatalog None (Some (lib_only "Foo" rule_with_property))
       = Ok st /\
     option_map proxyNamespaceExportsScript (obj_get "Foo" (proxyMapping st))
       = Some "const a=/* @__PURE__ */Foo.a;export {a,b};" /\
     option_map proxyNamespaceImportsScript (obj_get "Foo" (proxyMapping st))
       = Some ("import * as Foo from " ++ dquote ++
               "@esbuild-plugin-global-api/do-not-use-in-your-code-Foo" ++
               dquote ++ ";")) /\
  (forall catalog _platform options st namespace r t members member,
     setup catalog _platform options = Ok st ->
     In (namespace, r) (namespaceEntries st) ->
     rule r = Some (Normal (MemberNode t members)) ->
     obj_get member members = Some property ->
     member_script namespace members member = "" /\
     exists s,
       obj_get namespace (proxyMapping st) = Some s /\
       proxyNamespaceExportsScript s =
         code r ++
         join "" (map (member_script namespace members) (obj_keys members)) ++
         "export {" ++ join "," (obj_keys members) ++ "};" /\
       In member (obj_keys members) /\
       includes member (proxyNamespaceExportsScript s) = true).
Proof.
  split.
  - eexists. split; [reflexivity|]. split; reflexivity.
  - exact property_member_exported.
Qed.

(** ** The pure hint *)

(** C3 (as stated, refuted): with [pure: false] in the options, the export
    fragment of [Foo] is [const a=/* @__PURE__ */Foo.a;export {a};]; it
    holds the pure hint. *)
Lemma pure_hint_with_option_off :
  (exists st s,
     setup sampleCatalog None (Some pure_off) = Ok st /\
     obj_get "Foo" (proxyMapping st) = Some s /\
     proxyNamespaceExportsScript s = "const a=/* @__PURE__ */Foo.a;export {a};" /\
     includes pureComment (proxyNamespaceExportsScript s) = true) /\
  ~ pure_hint_follows_option.
Proof.
  split.
  - eexists. eexists. split; [reflexivity|]. split; [reflexivity|].
    split; reflexivity.
  - intros claim.
    pose proof (claim sampleCatalog None pure_off _ "Foo" _
                  eq_refl eq_refl eq_refl) as C.
    vm_compute in C. discriminate C.
Qed.

Lemma member_script_head (namespace : string) (members : obj MemberAccessKind)
  (member : string) (kind : MemberAccessKind) :
  obj_get member members = Some kind ->
  kind <> property ->
  includes
    ("const " ++ member ++ "=" ++ pureComment ++ namespace ++ "." ++ member)
    (member_script namespace members member) = true.
Proof.
  intros G K. unfold member_script. rewrite G. apply includes_spec.
  destruct kind; [| | |contradiction].
  - exists "", ";". now rewrite !str_app_assoc.
  - exists "", ";". now rewrite !str_app_assoc.
  - exists "", (".bind(" ++ namespace ++ ");"). now rewrite !str_app_assoc.
Qed.

(** C3 (amended): for every namespace whose rule resolves to an object or
    constructor node and every member of kind [constant], [func] or
    [func-bind], the export fragment holds the declaration of the member
    with the pure hint right before the member expression; this does not
    depend on a [pure] key of the options, which setup does not read. *)
Theorem pure_hint_always_emitted (catalog : Catalog)
  (_platform : option string) (o : PluginOptions) (st : Setup)
  (namespace : string) (r : ProxyNamespaceRule) (t : MemberNodeType)
  (members : obj MemberAccessKind) (member : string)
  (kind : MemberAccessKind) :
  setup catalog _platform (Some o) = Ok st ->
  In (namespace, r) (namespaceEntries st) ->
  (rule r = Some (Normal (MemberNode t members)) \/
   exists diffs,
     rule r = Some (Platform diffs) /\
     obj_get (active_platform _platform) diffs =
     Some (DiffNode (MemberNode t members))) ->
  obj_get member members = Some kind ->
  kind <> property ->
  (exists s,
     obj_get namespace (proxyMapping st) = Some s /\
     includes
       ("const " ++ member ++ "=" ++ pureComment ++ namespace ++ "." ++ member)
       (proxyNamespaceExportsScript s) = true) /\
  (forall b,
     setup catalog _platform
       (Some {| constructors := constructors o; vars := vars o;
                lib := lib o; pure := b |}) = Ok st).
Proof.
  intros H Hin Hrule G K. split.
  - eexists. split.
    + apply (member_expansion catalog _platform (Some o) st namespace r t);
        [exact H | exact Hin | exact Hrule].
    + unfold member_scripts. cbn [proxyNamespaceExportsScript].
      apply includes_app_r, includes_app_l.
      apply includes_trans
        with (b := member_script namespace members member).
      * now apply member_script_head with (kind := kind).
      * apply includes_join_map.
        apply obj_has_In. unfold obj_has. now rewrite G.
  - intros b. rewrite <- H. reflexivity.
Qed.

Lemma pure_hint_always_emitted_witness :
  exists st,
    setup sampleCatalog None (Some pure_off) = Ok st /\
    exists s,
      obj_get "Foo" (proxyMapping st) = Some s /\
      includes ("const a=" ++ pureComment ++ "Foo.a")
        (proxyNamespaceExportsScript s) = true.
Proof.
  eexists. split; [reflexivity|].
  apply (pure_hint_always_emitted sampleCatalog None pure_off _ "Foo"
           (plain_entry (Normal (MemberNode object [("a", func)])))
           object [("a", func)] "a" func).
  - reflexivity.
  - left. reflexivity.
  - left. reflexivity.
  - reflexivity.
  - discriminate.
Defined.

(** ** Mapping-form and lib entries *)

(** C5 (as stated, refuted): a mapping entry for [Foo], which the catalog
    does not have, with no rule, makes setup throw the engine's
    [TypeError] of reading [type] on [undefined], not an error raised by
    [die]; the same entry under the name [Object], which the catalog has,
    throws the same. *)
Lemma ruleless_entry_throws_type_error :
  setup sampleCatalog None (Some (ruleless_mapping "Foo"))
    = Throw undefined_type_read /\
  setup sampleCatalog None (Some (ruleless_mapping "Object"))
    = Throw undefined_type_read /\
  isGlobalCtor sampleCatalog "Foo" = false /\
  isGlobalVar sampleCatalog "Foo" = false /\
  isGlobalCtor sampleCatalog "Object" = true /\
  ~ unknown_without_rule_is_the_hard_failure.
Proof.
  repeat (split; [reflexivity|]).
  intros claim.
  destruct (claim sampleCatalog None (ruleless_mapping "Foo"))
    as [throws _].
  destruct throws as [msg E].
  - exists "Foo". repeat (split; [reflexivity|]).
    left. eexists. eexists. split; [left; reflexivity|].
    split; [left; reflexivity | reflexivity].
  - vm_compute in E. discriminate E.
Qed.

Lemma proxy_step_throws (platform : string) (map : ProxyMapping)
  (entry : string * ProxyNamespaceRule) (e : JsError) :
  proxy_step platform map entry = Throw e -> e = undefined_type_read.
Proof.
  unfold proxy_step.
  destruct (rule (snd entry)) as [[|[t members|]|diffs]|];
    try discriminate; try (intros H; now injection H).
  destruct (obj_get platform diffs) as [[|[t members|]]|];
    try discriminate. intros H. now injection H.
Qed.

Lemma reduce_proxy_throws (platform : string)
  (entries : list (string * ProxyNamespaceRule)) (e : JsError) :
  forall init,
    reduce (proxy_step platform) entries init = Throw e ->
    e = undefined_type_read.
Proof.
  induction entries as [|x entries IH]; intros init H; simpl in H;
    [discriminate|].
  destruct (proxy_step platform init x) as [acc|e'] eqn:E; simpl in H.
  - now apply (IH acc).
  - injection H as <-. now apply proxy_step_throws in E.
Qed.

Lemma reduce_proxy_ruleless (platform : string)
  (entries : list (string * ProxyNamespaceRule)) (name : string)
  (r : ProxyNamespaceRule) :
  In (name, r) entries ->
  rule r = None ->
  forall init,
    reduce (proxy_step platform) entries init = Throw undefined_type_read.
Proof.
  intros Hin None_rule.
  induction entries as [|x entries IH]; intros init; simpl in *;
    [contradiction|].
  destruct (proxy_step platform init x) as [acc|e'] eqn:E; simpl.
  - destruct Hin as [->|Hin]; [|now apply IH].
    unfold proxy_step in E. simpl in E. rewrite None_rule in E.
    discriminate E.
  - now rewrite (proxy_step_throws _ _ _ _ E).
Qed.

Lemma reduce_proxy_ruled (platform : string)
  (entries : list (string * ProxyNamespaceRule)) :
  (forall name r, In (name, r) entries ->
     exists h, rule r = Some h /\
               forall diffs, h = Platform diffs ->
                             obj_has platform diffs = true) ->
  forall init, exists m, reduce (proxy_step platform) entries init = Ok m.
Proof.
  induction entries as [|[name r] entries IH]; intros ruled init; simpl.
  - eauto.
  - assert (step : exists acc,
              proxy_step platform init (name, r) = Ok acc).
    { destruct (ruled name r) as [h [E D]]; [simpl; auto|].
      unfold proxy_step. simpl. rewrite E.
      destruct h as [|[t members|]|diffs]; eauto.
      specialize (D diffs eq_refl). unfold obj_has in D.
      destruct (obj_get platform diffs) as [[|[t members|]]|]; eauto.
      discriminate D. }
    destruct step as [acc E]. rewrite E. simpl.
    apply IH. intros name' r' Hin. apply (ruled name' r'). simpl. auto.
Qed.

Lemma fold_mapping_step (entries : obj ProxyNamespaceRuleConfig) :
  forall acc : ApplyMapping,
    NoDup (obj_keys entries) ->
    (forall name, In name (obj_keys entries) -> ~ In name (obj_keys acc)) ->
    fold_left mapping_step entries acc =
    (acc ++ map (fun entry =>
                   (fst entry, patchProxyNamespaceRuleConfig (snd entry)))
              entries)%list.
Proof.
  induction entries as [|[k c] entries IH]; intros acc nd fresh; simpl.
  - now rewrite app_nil_r.
  - inversion nd as [|? ? notin nd']; subst.
    assert (S : forall (o : ApplyMapping) v,
              ~ In k (obj_keys o) -> obj_set k v o = (o ++ [(k, v)])%list).
    { induction o as [|[k' v'] o IHo]; intros v Hk; simpl; [reflexivity|].
      destruct (k =? k') eqn:E.
      - apply String.eqb_eq in E. subst. elim Hk. simpl. auto.
      - rewrite IHo; [reflexivity|]. intros F. apply Hk. simpl. auto. }
    unfold mapping_step at 2. simpl.
    rewrite S by (apply fresh; simpl; auto).
    rewrite IH; [now rewrite <- app_assoc | exact nd'|].
    intros name Hin F. unfold obj_keys in F. rewrite map_app in F.
    apply in_app_or in F as [F|[<-|[]]].
    + apply (fresh name); simpl; auto.
    + contradiction.
Qed.

Lemma obj_get_In {V : Type} (k : string) (v : V) (o : obj V) :
  NoDup (map fst o) -> In (k, v) o -> obj_get k o = Some v.
Proof.
  induction o as [|[k' v'] o IH]; simpl; [tauto|].
  intros nd [H|H].
  - injection H as -> ->. now rewrite String.eqb_refl.
  - inversion nd as [|? ? notin nd']; subst.
    destruct (k =? k') eqn:E; [|now apply IH].
    apply String.eqb_eq in E. subst k'.
    elim notin. change k with (fst (k, v)). now apply in_map.
Qed.

Lemma obj_get_Some_In {V : Type} (k : string) (v : V) (o : obj V) :
  obj_get k o = Some v -> In (k, v) o.
Proof.
  induction o as [|[k' v'] o IH]; simpl; [discriminate|].
  destruct (k =? k') eqn:E.
  - apply String.eqb_eq in E. subst k'. intros H. injection H as ->. auto.
  - auto.
Qed.

(** C5 (amended): mapping-form and lib entries are never checked against
    the catalog.  A group in mapping form always resolves, the same under
    every catalog, to its entries patched: the rule as given, the code or
    the empty string, the [applyTo] or the default one; a lib entry is
    merged as it is given.  Once both groups have resolved, setup never
    throws an error raised by [die]: it throws the [TypeError] of reading
    [type] on [undefined] when an entry of the merged mapping has no rule,
    whether or not the catalog has its name, and it succeeds when every
    entry of the merged mapping has a rule (with a diff for the active
    platform when the rule is platform-conditional). *)
Theorem mapping_entries_bypass_catalog (catalog : Catalog)
  (_platform : option string) (options : option PluginOptions)
  (cw vw : ApplyMapping * list string) :
  resolve_group catalog "constructor"
    (_constructors (merge_options options)) [] = Ok cw ->
  resolve_group catalog "variable"
    (_vars (merge_options options)) (snd cw) = Ok vw ->
  let lib :=
    match _lib (merge_options options) with Some l => l | None => [] end in
  let merged :=
    obj_assign (obj_assign (obj_assign [] (fst cw)) (fst vw)) lib in
  let patched := fun entry : string * ProxyNamespaceRuleConfig =>
    (fst entry,
     {| code := match cfg_code (snd entry) with
                | Some c => c
                | None => ""
                end;
        rule := cfg_rule (snd entry);
        applyTo := match cfg_applyTo (snd entry) with
                   | Some f => f
                   | None => defaultApplyTo
                   end |}) in
  (forall entries,
     _constructors (merge_options options) = Some (ConfigMapping entries) ->
     NoDup (map fst entries) -> ~ In "__proto__" (map fst entries) ->
     fst cw = map patched entries) /\
  (forall entries,
     _vars (merge_options options) = Some (ConfigMapping entries) ->
     NoDup (map fst entries) -> ~ In "__proto__" (map fst entries) ->
     fst vw = map patched entries) /\
  (forall catalog' kind entries printed,
     NoDup (map fst entries) -> ~ In "__proto__" (map fst entries) ->
     resolve_group catalog' kind (Some (ConfigMapping entries)) printed =
     Ok (map patched entries, printed)) /\
  (NoDup (map fst lib) -> ~ In "__proto__" (map fst lib) ->
   forall name r, In (name, r) lib -> In (name, r) merged) /\
  (forall msg, setup catalog _platform options <> Throw (Error msg)) /\
  ((exists name r, In (name, r) merged /\ rule r = None) ->
   setup catalog _platform options = Throw undefined_type_read) /\
  ((forall name r, In (name, r) merged ->
      exists h, rule r = Some h /\
                forall diffs, h = Platform diffs ->
                              obj_has (active_platform _platform) diffs = true) ->
   exists st,
     setup catalog _platform options = Ok st /\ namespaceEntries st = merged).
Proof.
  intros C V lib merged patched.
  assert (unfolded :
            setup catalog _platform options =
            (proxyMapping <-
               reduce (proxy_step (active_platform _platform)) merged [] ;;
             Ok {| namespaceEntries := merged;
                   proxyMapping := proxyMapping;
                   warnings := snd vw |})).
  { unfold setup. rewrite C. simpl. rewrite V. reflexivity. }
  assert (mapping : forall catalog' kind entries printed,
            NoDup (map fst entries) ->
            resolve_group catalog' kind (Some (ConfigMapping entries)) printed
            = Ok (map patched entries, printed)).
  { intros catalog' kind entries printed nd. simpl. unfold obj_entries.
    rewrite (fold_mapping_step entries [] nd); [reflexivity|].
    intros name _ F. exact F. }
  split; [|split; [|split; [|split; [|split; [|split]]]]].
  - intros entries E nd _. rewrite E in C.
    rewrite (mapping catalog "constructor" entries [] nd) in C.
    now injection C as <-.
  - intros entries E nd _. rewrite E in V.
    rewrite (mapping catalog "variable" entries (snd cw) nd) in V.
    now injection V as <-.
  - intros catalog' kind entries printed nd _. now apply mapping.
  - intros nd _ name r Hin. apply obj_get_Some_In. unfold merged.
    rewrite obj_assign_get by exact nd.
    now rewrite (obj_get_In name r lib nd Hin).
  - intros msg. rewrite unfolded.
    destruct (reduce (proxy_step (active_platform _platform)) merged [])
      as [m|e] eqn:R; simpl; [discriminate|].
    apply reduce_proxy_throws in R. subst e. discriminate.
  - intros [name [r [Hin E]]]. rewrite unfolded.
    now rewrite (reduce_proxy_ruleless _ _ _ _ Hin E).
  - intros ruled. rewrite unfolded.
    destruct (reduce_proxy_ruled _ _ ruled []) as [m R].
    rewrite R. simpl. eauto.
Qed.

Lemma mapping_entries_bypass_catalog_witness :
  resolve_group sampleCatalog "constructor"
    (_constructors (merge_options (Some (ruleless_mapping "Foo")))) [] =
    Ok ([("Foo", {| code := ""; rule := None; applyTo := defaultApplyTo |})],
        []) /\
  setup sampleCatalog None (Some (ruleless_mapping "Foo"))
    = Throw undefined_type_read.
Proof.
  pose proof
    (mapping_entries_bypass_catalog sampleCatalog None
       (Some (ruleless_mapping "Foo"))
       ([("Foo", {| code := ""; rule := None; applyTo := defaultApplyTo |})],
        [])
       ([], []) eq_refl eq_refl) as P.
  cbv zeta in P. destruct P as (_ & _ & M & _ & _ & P & _).
  split.
  - apply (M sampleCatalog "constructor"
             [("Foo", {| cfg_code := None; cfg_rule := None;
                         cfg_applyTo := None |})] []).
    + repeat constructor. simpl. tauto.
    + simpl. intros [F|[]]. discriminate F.
  - apply P.
    eexists. eexists. split; [left; reflexivity | reflexivity].
Defined.

(** * Further properties of the plugin *)

(** ** Synthetic module paths *)

Lemma str_app_inv_head (p a b : string) : p ++ a = p ++ b -> a = b.
Proof.
  induction p as [|c p IH]; simpl; intros H; [exact H|].
  injection H as H. exact (IH H).
Qed.

Lemma drop_chars_app (p s : string) : drop_chars (String.length p) (p ++ s) = s.
Proof.
  induction p as [|c p IH]; simpl; [reflexivity | exact IH].
Qed.

Lemma remove_first_unfold (p s : string) :
  remove_first p s =
  if String.prefix p s then drop_chars (String.length p) s
  else match s with
       | EmptyString => EmptyString
       | String c s' => String c (remove_first p s')
       end.
Proof.
  destruct s; reflexivity.
Qed.

Lemma remove_first_head (p s : string) : remove_first p (p ++ s) = s.
Proof.
  rewrite remove_first_unfold.
  assert (E : String.prefix p (p ++ s) = true) by (apply prefix_app; eauto).
  rewrite E. apply drop_chars_app.
Qed.

Lemma createProxyUrl_pattern (namespace : string) :
  pattern (createProxyUrl namespace) = true.
Proof.
  unfold pattern, createProxyUrl. apply prefix_app. eauto.
Qed.

(** X4: two namespaces never share a synthetic module path, every synthetic
    path is taken by the resolve hook, with the path unchanged and the
    private namespace, and the proxy load hook recovers the namespace name
    from the path. *)
Theorem createProxyUrl_injective (a b : string) :
  createProxyUrl a = createProxyUrl b ->
  a = b /\
  onResolve (createProxyUrl a) =
    Some {| resolved_path := createProxyUrl a;
            resolved_namespace := proxyModule |} /\
  remove_first (proxyModule ++ "-") (createProxyUrl a) = a.
Proof.
  intros H. split; [|split].
  - unfold createProxyUrl in H.
    apply str_app_inv_head in H. now apply (str_app_inv_head "-").
  - unfold onResolve. now rewrite createProxyUrl_pattern.
  - unfold createProxyUrl. rewrite <- str_app_assoc.
    apply remove_first_head.
Qed.

Lemma createProxyUrl_injective_witness :
  "console" = "console" /\
  onResolve (createProxyUrl "console") =
    Some {| resolved_path := createProxyUrl "console";
            resolved_namespace := proxyModule |} /\
  remove_first (proxyModule ++ "-") (createProxyUrl "console") = "console".
Proof.
  apply (createProxyUrl_injective "console" "console"). reflexivity.
Defined.

(** ** [proxyMapping] and the merged namespaces *)

Lemma proxy_step_url (platform : string)
  (entry : string * ProxyNamespaceRule) (k : string) (s : ProxyScripts) :
  proxy_step platform [] entry = Ok [(k, s)] ->
  url s = createProxyUrl (fst entry).
Proof.
  unfold proxy_step.
  destruct (rule (snd entry)) as [[|[t members|]|diffs]|];
    try discriminate;
    try (intros H; injection H as _ <-; reflexivity).
  destruct (obj_get platform diffs) as [[|[t members|]]|];
    try discriminate; intros H; injection H as _ <-; reflexivity.
Qed.

Lemma reduce_proxy_keys (platform : string)
  (entries : list (string * ProxyNamespaceRule)) :
  forall init m,
    NoDup (map fst entries) ->
    (forall k, In k (map fst entries) -> ~ In k (obj_keys init)) ->
    reduce (proxy_step platform) entries init = Ok m ->
    obj_keys m = (obj_keys init ++ map fst entries)%list.
Proof.
  induction entries as [|x entries IH]; intros init m nd fresh H;
    simpl in *.
  - injection H as <-. now rewrite app_nil_r.
  - inversion nd as [|? ? notin nd']; subst.
    destruct (proxy_step_shape platform init x)
      as [[s [_ E]]|[e [_ E]]]; rewrite E in H; simpl in H;
      [|discriminate].
    assert (K : obj_keys (obj_set (fst x) s init) =
                (obj_keys init ++ [fst x])%list).
    { rewrite obj_keys_set.
      destruct (obj_has (fst x) init) eqn:Has; [|reflexivity].
      apply obj_has_In in Has. elim (fresh (fst x)); auto. }
    assert (fresh' : forall k, In k (map fst entries) ->
                       ~ In k (obj_keys (obj_set (fst x) s init))).
    { intros k Hk. rewrite K. intros Hin.
      apply in_app_or in Hin as [Hin|[<-|[]]].
      - apply (fresh k); auto.
      - contradiction. }
    rewrite (IH _ _ nd' fresh' H), K, <- app_assoc. reflexivity.
Qed.

Lemma setup_proxy_keys (catalog : Catalog) (_platform : option string)
  (options : option PluginOptions) (st : Setup) :
  setup catalog _platform options = Ok st ->
  obj_keys (proxyMapping st) = map fst (namespaceEntries st).
Proof.
  intros H.
  pose proof (setup_entries_NoDup _ _ _ _ H) as nd.
  destruct (setup_inv _ _ _ _ H) as (cw & vw & _ & _ & _ & R & _).
  apply (reduce_proxy_keys (active_platform _platform) _ [] _ nd);
    [|exact R].
  intros k _ F. exact F.
Qed.

(** X3: after setup, [proxyMapping] has one entry per merged namespace, in
    the order of the merged mapping, and the entry of a namespace carries
    the namespace's own synthetic path, which is not empty. *)
Theorem proxyMapping_keys (catalog : Catalog) (_platform : option string)
  (options : option PluginOptions) (st : Setup) :
  setup catalog _platform options = Ok st ->
  obj_keys (proxyMapping st) = map fst (namespaceEntries st) /\
  (forall namespace s,
     obj_get namespace (proxyMapping st) = Some s ->
     url s = createProxyUrl namespace /\ url s <> "" /\
     exists r, In (namespace, r) (namespaceEntries st)).
Proof.
  intros H.
  pose proof (setup_proxy_keys _ _ _ _ H) as K.
  split; [exact K|].
  intros namespace s G.
  assert (Hk : In namespace (map fst (namespaceEntries st))).
  { rewrite <- K. apply obj_has_In. unfold obj_has. now rewrite G. }
  apply in_map_iff in Hk as [[ns r] [E Hin]]. simpl in E. subst ns.
  destruct (setup_scripts _ _ _ _ _ H Hin) as [s' [Hstep G']].
  simpl in G'. rewrite G in G'. injection G' as <-.
  apply proxy_step_url in Hstep. simpl in Hstep.
  rewrite Hstep. repeat split; eauto. discriminate.
Qed.

Lemma proxyMapping_keys_witness :
  exists st,
    setup sampleCatalog None None = Ok st /\
    obj_keys (proxyMapping st) = map fst (namespaceEntries st).
Proof.
  eexists. split; [reflexivity|].
  apply (proxyMapping_keys sampleCatalog None None _ eq_refl).
Defined.

(** ** The proxy load hook *)

Lemma proxy_step_import_names_url (platform : string)
  (entry : string * ProxyNamespaceRule) (k : string) (s : ProxyScripts) :
  proxy_step platform [] entry = Ok [(k, s)] ->
  includes (url s) (proxyNamespaceImportsScript s) = true /\
  includes (fst entry) (proxyNamespaceImportsScript s) = true.
Proof.
  assert (named : forall namespace code u,
            includes u
              (proxyNamespaceImportsScript (varOnly_scripts namespace code u))
              = true /\
            includes namespace
              (proxyNamespaceImportsScript (varOnly_scripts namespace code u))
              = true).
  { intros namespace code u. split; apply includes_spec.
    - exists ("import {" ++ namespace ++ "}from '"), "';". simpl.
      now rewrite !str_app_assoc.
    - now exists "import {", ("}from '" ++ u ++ "';"). }
  assert (starred : forall namespace code u members,
            includes u
              (proxyNamespaceImportsScript
                 (member_scripts namespace code u members)) = true /\
            includes namespace
              (proxyNamespaceImportsScript
                 (member_scripts namespace code u members)) = true).
  { intros namespace code u members. split; apply includes_spec.
    - exists ("import * as " ++ namespace ++ " from " ++ dquote),
        (dquote ++ ";").
      unfold member_scripts. cbn [proxyNamespaceImportsScript].
      now rewrite !str_app_assoc.
    - now exists "import * as ", (" from " ++ dquote ++ u ++ dquote ++ ";"). }
  unfold proxy_step.
  destruct (rule (snd entry)) as [[|[t members|]|diffs]|];
    try discriminate;
    try (intros H; injection H as _ <-; auto).
  destruct (obj_get platform diffs) as [[|[t members|]]|];
    try discriminate; intros H; injection H as _ <-; auto.
Qed.

(** X1: every import the file load hook can prepend is served.  For each
    merged namespace, the import fragment names the namespace and its
    synthetic path; the resolve hook takes that path into the private
    namespace; and the proxy load hook, given that path, returns the
    namespace's export fragment with the [js] loader. *)
Theorem proxy_module_round_trip (catalog : Catalog)
  (inherited : string -> bool) (_platform : option string)
  (options : option PluginOptions) (st : Setup) (namespace : string)
  (r : ProxyNamespaceRule) :
  setup catalog _platform options = Ok st ->
  In (namespace, r) (namespaceEntries st) ->
  exists s,
    obj_get namespace (proxyMapping st) = Some s /\
    url s = createProxyUrl namespace /\
    includes (url s) (proxyNamespaceImportsScript s) = true /\
    includes namespace (proxyNamespaceImportsScript s) = true /\
    onResolve (url s) =
      Some {| resolved_path := url s; resolved_namespace := proxyModule |} /\
    onLoadProxy inherited st (url s) =
      Ok {| proxy_contents := Some (proxyNamespaceExportsScript s);
            proxy_loader := js |}.
Proof.
  intros H Hin.
  destruct (setup_scripts _ _ _ _ _ H Hin) as [s [Hstep G]]. simpl in G.
  exists s.
  pose proof (proxy_step_url _ _ _ _ Hstep) as U. simpl in U.
  destruct (proxy_step_import_names_url _ _ _ _ Hstep) as [I1 I2].
  simpl in I2.
  split; [exact G|]. split; [exact U|]. split; [exact I1|].
  split; [exact I2|]. rewrite U. split.
  - unfold onResolve. now rewrite createProxyUrl_pattern.
  - unfold onLoadProxy, createProxyUrl.
    rewrite <- str_app_assoc, remove_first_head.
    unfold obj_has. now rewrite G.
Qed.

Lemma proxy_module_round_trip_witness :
  exists st,
    setup sampleCatalog None None = Ok st /\
    exists s,
      obj_get "console" (proxyMapping st) = Some s /\
      url s = createProxyUrl "console" /\
      includes (url s) (proxyNamespaceImportsScript s) = true /\
      includes "console" (proxyNamespaceImportsScript s) = true /\
      onResolve (url s) =
        Some {| resolved_path := url s; resolved_namespace := proxyModule |} /\
      onLoadProxy sampleInherited st (url s) =
        Ok {| proxy_contents := Some (proxyNamespaceExportsScript s);
              proxy_loader := js |}.
Proof.
  eexists. split; [reflexivity|].
  apply (proxy_module_round_trip sampleCatalog sampleInherited None None
           _ "console" (plain_entry (sampleVarRule "console")) eq_refl).
  right. left. reflexivity.
Defined.

(** X2: after setup, the proxy load hook given the synthetic path of a name
    that is not a merged namespace throws [Unexpected matched path] with the
    path quoted, unless the name is a property that objects inherit: then it
    returns contents [undefined] and does not throw. *)
Theorem unconfigured_proxy_path (catalog : Catalog)
  (inherited : string -> bool) (_platform : option string)
  (options : option PluginOptions) (st : Setup) (name : string) :
  setup catalog _platform options = Ok st ->
  ~ In name (map fst (namespaceEntries st)) ->
  onLoadProxy inherited st (createProxyUrl name) =
  if inherited name
  then Ok {| proxy_contents := None; proxy_loader := js |}
  else Throw (Error ("Unexpected matched path: " ++ dquote ++
                     createProxyUrl name ++ dquote)).
Proof.
  intros H notin.
  pose proof (setup_proxy_keys _ _ _ _ H) as K.
  assert (G : obj_get name (proxyMapping st) = None).
  { apply obj_get_None. now rewrite K. }
  unfold onLoadProxy.
  replace (remove_first (proxyModule ++ "-") (createProxyUrl name))
    with name.
  - unfold obj_has. rewrite G. simpl. reflexivity.
  - unfold createProxyUrl. now rewrite <- str_app_assoc, remove_first_head.
Qed.

Lemma unconfigured_proxy_path_witness :
  exists st,
    setup sampleCatalog None None = Ok st /\
    onLoadProxy sampleInherited st (createProxyUrl "toString") =
      Ok {| proxy_contents := None; proxy_loader := js |} /\
    onLoadProxy sampleInherited st (createProxyUrl "Foo") =
      Throw (Error ("Unexpected matched path: " ++ dquote ++
                    createProxyUrl "Foo" ++ dquote)).
Proof.
  eexists. split; [reflexivity|]. split.
  - apply (unconfigured_proxy_path sampleCatalog sampleInherited None None
             _ "toString" eq_refl).
    vm_compute. intros F.
    repeat (destruct F as [F|F]; [discriminate|]). exact F.
  - apply (unconfigured_proxy_path sampleCatalog sampleInherited None None
             _ "Foo" eq_refl).
    vm_compute. intros F.
    repeat (destruct F as [F|F]; [discriminate|]). exact F.
Defined.

(** ** Errors of the file load hook *)

(** X5: after setup, the file load hook throws nothing of its own: when it
    throws, it throws what [readFile] threw for that path. *)
Theorem file_handler_only_io_errors (catalog : Catalog) (host : Host)
  (_platform : option string) (options : option PluginOptions) (st : Setup)
  (path : string) (e : JsError) :
  setup catalog _platform options = Ok st ->
  onLoadFile host st path = Throw e ->
  readFile host path = Throw e.
Proof.
  intros H L. unfold onLoadFile in L.
  destruct (Nat.eqb _ 0) in L; [discriminate|].
  destruct (existsb (String.eqb (parse_ext host path)) scriptExts);
    [|discriminate].
  destruct (readFile host path) as [content|e'] eqn:R; simpl in L;
    [|now injection L as <-].
  destruct (map_result_import_of_total st
              (filter (fun entry => applyTo (snd entry) path)
                 (namespaceEntries st))) as [fragments E].
  { intros entry Hin. apply filter_In in Hin as [Hin _].
    destruct (setup_scripts _ _ _ _ _ H Hin) as [s [_ G]]. eauto. }
  rewrite E in L. simpl in L. discriminate.
Qed.

Lemma file_handler_only_io_errors_witness :
  readFile failingHost "src/missing.ts" =
  Throw (IOError "ENOENT: no such file or directory").
Proof.
  apply (file_handler_only_io_errors sampleCatalog failingHost None None
           match setup sampleCatalog None None with
           | Ok st => st
           | Throw _ => console_only
           end
           "src/missing.ts").
  - reflexivity.
  - vm_compute. reflexivity.
Defined.

(** ** Resolving a group *)

Lemma obj_set_In {V : Type} (k : string) (v : V) (o : obj V)
  (e : string * V) :
  In e (obj_set k v o) -> e = (k, v) \/ In e o.
Proof.
  induction o as [|[k' v'] o IH]; simpl.
  - intros [<-|[]]. auto.
  - destruct (k =? k') eqn:E; simpl.
    + apply String.eqb_eq in E. subst k'. intros [<-|H]; auto.
    + intros [<-|H]; auto. destruct (IH H); auto.
Qed.

Lemma obj_assign_In {V : Type} (source : obj V) :
  forall target e, In e (obj_assign target source) ->
                   In e target \/ In e source.
Proof.
  unfold obj_assign.
  induction source as [|[k v] source IH]; intros target e H; simpl in *;
    [auto|].
  destruct (IH _ _ H) as [H'|H']; [|auto].
  apply obj_set_In in H' as [->|H']; auto.
Qed.

(** What the reducer over a plain list leaves in the accumulator. *)
Lemma reduce_list_spec (catalog : Catalog) (kind : string)
  (names : list string) :
  forall acc w acc' w',
    reduce (list_step catalog kind) names (acc, w) = Ok (acc', w') ->
    w' = w /\
    (forall name, In name names ->
       isGlobalCtor catalog name || isGlobalVar catalog name = true /\
       obj_get name acc' =
       Some {| code := "";
               rule := Some (if isGlobalCtor catalog name
                             then globalConstructorWithStatics catalog name
                             else globalVars catalog name);
               applyTo := defaultApplyTo |}) /\
    (forall name, ~ In name names -> obj_get name acc' = obj_get name acc) /\
    (forall e, In e acc' ->
       In e acc \/
       (In (fst e) names /\ code (snd e) = "" /\
        applyTo (snd e) = defaultApplyTo)) /\
    (NoDup names ->
     (forall name, In name names -> ~ In name (obj_keys acc)) ->
     obj_keys acc' = (obj_keys acc ++ names)%list).
Proof.
  induction names as [|x names IH]; intros acc w acc' w' H; simpl in H.
  - injection H as <- <-.
    split; [reflexivity|]. split; [intros name []|].
    split; [reflexivity|]. split; [auto|].
    intros _ _. now rewrite app_nil_r.
  - unfold list_step at 1 in H. unfold defaultProxyNamespaceRule in H.
    set (r := if isGlobalCtor catalog x
              then globalConstructorWithStatics catalog x
              else globalVars catalog x).
    assert (step : isGlobalCtor catalog x || isGlobalVar catalog x = true /\
                   reduce (list_step catalog kind) names
                     (obj_set x {| code := ""; rule := Some r;
                                   applyTo := defaultApplyTo |} acc, w)
                   = Ok (acc', w')).
    { unfold r. destruct (isGlobalCtor catalog x); simpl in *; [auto|].
      destruct (isGlobalVar catalog x); simpl in *; [auto|discriminate]. }
    clear H. destruct step as [known H].
    destruct (IH _ _ _ _ H) as (W & inside & outside & origin & keys).
    split; [exact W|]. split; [|split; [|split]].
    + intros name [<-|Hin]; [|now apply inside].
      split; [exact known|].
      destruct (in_dec string_dec x names) as [Hx|Hx];
        [now apply inside|].
      rewrite (outside _ Hx). apply obj_get_set_same.
    + intros name notin. rewrite outside by (simpl in notin; tauto).
      apply obj_get_set_other. simpl in notin. tauto.
    + intros e He. destruct (origin e He) as [Ha|(Hn & Hc & Hp)].
      * apply obj_set_In in Ha as [->|Ha]; [|auto].
        right. simpl. auto.
      * right. simpl. auto.
    + intros nd fresh. inversion nd as [|? ? notin nd']; subst.
      assert (K : obj_keys (obj_set x {| code := ""; rule := Some r;
                                         applyTo := defaultApplyTo |} acc)
                  = (obj_keys acc ++ [x])%list).
      { rewrite obj_keys_set.
        destruct (obj_has x acc) eqn:Has; [|reflexivity].
        apply obj_has_In in Has. elim (fresh x); simpl; auto. }
      rewrite keys, K, <- app_assoc; [reflexivity | exact nd'|].
      intros name Hin. rewrite K. intros F.
      apply in_app_or in F as [F|[<-|[]]].
      * apply (fresh name); simpl; auto.
      * contradiction.
Qed.

Lemma reduce_list_known (catalog : Catalog) (kind : string)
  (names : list string) :
  (forall name, In name names ->
     isGlobalCtor catalog name || isGlobalVar catalog name = true) ->
  forall st, exists st', reduce (list_step catalog kind) names st = Ok st'.
Proof.
  induction names as [|x names IH]; intros known st; simpl; [eauto|].
  destruct (list_step_cases catalog kind st x) as [E|[applyRule E]].
  - exfalso. unfold list_step, defaultProxyNamespaceRule in E.
    pose proof (known x (or_introl eq_refl)) as K.
    destruct (isGlobalCtor catalog x); simpl in *; [discriminate|].
    destruct (isGlobalVar catalog x); simpl in *; discriminate.
  - rewrite E. simpl. apply IH. intros name Hin. apply known. simpl. auto.
Qed.

(** X7: a plain list of names resolves exactly when the catalog knows every
    name, as a constructor or as a variable, whichever group the list is
    given for.  Each name then gets no extra code, the default [applyTo] and
    the catalog's rule, the constructor table being asked first; nothing is
    printed; and names that are all different keep their order. *)
Theorem list_names_get_catalog_rules (catalog : Catalog) (kind : string)
  (names : list string) (printed : list string) :
  (forall name, In name names ->
     isGlobalCtor catalog name || isGlobalVar catalog name = true) ->
  exists group,
    resolve_group catalog kind (Some (NameList names)) printed
      = Ok (group, printed) /\
    (forall name, In name names ->
       obj_get name group =
       Some {| code := "";
               rule := Some (if isGlobalCtor catalog name
                             then globalConstructorWithStatics catalog name
                             else globalVars catalog name);
               applyTo := defaultApplyTo |}) /\
    (forall name, ~ In name names -> obj_get name group = None) /\
    (NoDup names -> obj_keys group = names).
Proof.
  intros known. simpl.
  destruct (reduce_list_known catalog kind names known ([], printed))
    as [[group w] R].
  destruct (reduce_list_spec _ _ _ _ _ _ _ R)
    as (-> & inside & outside & _ & keys).
  exists group. split; [exact R|]. split; [|split].
  - intros name Hin. now apply inside.
  - intros name notin. now rewrite outside.
  - intros nd. now apply keys.
Qed.

Lemma list_names_get_catalog_rules_witness :
  exists group,
    resolve_group sampleCatalog "variable"
      (Some (NameList ["console"; "Object"])) [] = Ok (group, []) /\
    obj_get "Object" group =
      Some {| code := ""; rule := Some (sampleCtorRule "Object");
              applyTo := defaultApplyTo |} /\
    obj_keys group = ["console"; "Object"].
Proof.
  destruct (list_names_get_catalog_rules sampleCatalog "variable"
              ["console"; "Object"] [])
    as [group (R & inside & _ & keys)].
  - intros name [<-|[<-|[]]]; reflexivity.
  - exists group. split; [exact R|]. split.
    + apply (inside "Object"). simpl. auto.
    + apply keys. repeat constructor; simpl; intuition discriminate.
Defined.

(** X12: a group given as a mapping of configs resolves, whatever the
    catalog holds, to the same names in the same order, each config patched:
    the rule as given, the code or the empty string, the [applyTo] or the
    default one.  Nothing is printed. *)
Theorem mapping_entries_patched (catalog : Catalog) (kind : string)
  (entries : obj ProxyNamespaceRuleConfig) (printed : list string) :
  NoDup (obj_keys entries) ->
  resolve_group catalog kind (Some (ConfigMapping entries)) printed =
  Ok (map (fun entry =>
             (fst entry,
              {| code := match cfg_code (snd entry) with
                         | Some c => c
                         | None => ""
                         end;
                 rule := cfg_rule (snd entry);
                 applyTo := match cfg_applyTo (snd entry) with
                            | Some f => f
                            | None => defaultApplyTo
                            end |}))
        entries,
      printed).
Proof.
  intros nd. simpl. unfold obj_entries.
  rewrite (fold_mapping_step entries [] nd); [reflexivity|].
  intros name _ F. exact F.
Qed.

Lemma mapping_entries_patched_witness :
  resolve_group sampleCatalog "variable"
    (Some (ConfigMapping
             [("console", {| cfg_code := None; cfg_rule := Some Noop;
                             cfg_applyTo := None |})])) [] =
  Ok ([("console", {| code := ""; rule := Some Noop;
                      applyTo := defaultApplyTo |})], []).
Proof.
  apply (mapping_entries_patched sampleCatalog "variable"
           [("console", {| cfg_code := None; cfg_rule := Some Noop;
                           cfg_applyTo := None |})] []).
  repeat constructor. simpl. tauto.
Defined.

(** ** Plain lists and [node_modules] *)

Lemma list_group_entries (catalog : Catalog) (kind : string)
  (names : list string) (printed : list string)
  (cw : ApplyMapping * list string) (e : string * ProxyNamespaceRule) :
  resolve_group catalog kind (Some (NameList names)) printed = Ok cw ->
  In e (fst cw) ->
  code (snd e) = "" /\ applyTo (snd e) = defaultApplyTo.
Proof.
  destruct cw as [group w]. simpl. intros R He.
  destruct (reduce_list_spec _ _ _ _ _ _ _ R) as (_ & _ & _ & origin & _).
  destruct (origin e He) as [[]|(_ & Hc & Hp)]. auto.
Qed.

Lemma filter_all_rejected (path : string)
  (entries : list (string * ProxyNamespaceRule)) :
  (forall e, In e entries -> applyTo (snd e) path = false) ->
  filter (fun entry => applyTo (snd entry) path) entries = [].
Proof.
  induction entries as [|e l IH]; intros rejected; simpl; [reflexivity|].
  rewrite (rejected e) by (simpl; auto).
  apply IH. intros e' He'. apply rejected. simpl. auto.
Qed.

(** X6: when [constructors] and [vars] are plain lists (the defaults are)
    and there is no lib entry, every merged namespace has the default
    [applyTo]: a file whose path contains [node_modules] is never
    transformed, and for any other path every merged namespace matches. *)
Theorem list_config_skips_node_modules (catalog : Catalog) (host : Host)
  (_platform : option string) (options : option PluginOptions) (st : Setup)
  (cnames vnames : list string) (path : string) :
  _constructors (merge_options options) = Some (NameList cnames) ->
  _vars (merge_options options) = Some (NameList vnames) ->
  (_lib (merge_options options) = None \/
   _lib (merge_options options) = Some []) ->
  setup catalog _platform options = Ok st ->
  (includes "node_modules" path = true ->
   onLoadFile host st path = Ok None) /\
  (includes "node_modules" path = false ->
   filter (fun entry => applyTo (snd entry) path) (namespaceEntries st) =
   namespaceEntries st).
Proof.
  intros C V L H.
  destruct (setup_inv _ _ _ _ H) as (cw & vw & RC & RV & E & _).
  rewrite C in RC. rewrite V in RV.
  assert (lib_empty : match _lib (merge_options options) with
                      | Some l => l
                      | None => []
                      end = []).
  { destruct L as [-> | ->]; reflexivity. }
  rewrite lib_empty in E. unfold obj_entries in E.
  assert (default : forall e, In e (namespaceEntries st) ->
                      applyTo (snd e) = defaultApplyTo).
  { intros e He. rewrite E in He.
    apply obj_assign_In in He as [He|[]].
    apply obj_assign_In in He as [He|He].
    - apply obj_assign_In in He as [[]|He].
      now apply (list_group_entries _ _ _ _ _ _ RC).
    - now apply (list_group_entries _ _ _ _ _ _ RV). }
  split.
  - intros inside. apply onLoadFile_unmatched, filter_all_rejected.
    intros e He. rewrite (default e He). unfold defaultApplyTo.
    now rewrite inside.
  - intros outside. clear E.
    induction (namespaceEntries st) as [|e l IH]; simpl; [reflexivity|].
    rewrite (default e) by (simpl; auto).
    unfold defaultApplyTo at 1. rewrite outside. simpl.
    f_equal. apply IH. intros e' He'. apply default. simpl. auto.
Qed.

Lemma list_config_skips_node_modules_witness :
  exists st,
    setup sampleCatalog None None = Ok st /\
    onLoadFile sampleHost st "node_modules/react/index.js" = Ok None.
Proof.
  eexists. split; [reflexivity|].
  apply (list_config_skips_node_modules sampleCatalog sampleHost None None _
           ["Object"] ["console"; "JSON"; "Math"; "Reflect"]
           "node_modules/react/index.js"
           eq_refl eq_refl (or_intror eq_refl) eq_refl).
  vm_compute. reflexivity.
Defined.

(** ** What setup can throw *)

Lemma reduce_list_throw (catalog : Catalog) (kind : string)
  (names : list string) (e : JsError) :
  forall st,
    reduce (list_step catalog kind) names st = Throw e ->
    exists name,
      In name names /\
      isGlobalCtor catalog name = false /\
      isGlobalVar catalog name = false /\
      e = Error ("Unknown global name " ++ name).
Proof.
  induction names as [|x names IH]; intros st H; simpl in H;
    [discriminate|].
  unfold list_step at 1 in H. unfold defaultProxyNamespaceRule in H.
  destruct (isGlobalCtor catalog x) eqn:C; simpl in H.
  - destruct (IH _ H) as [name (Hin & R)]. exists name. simpl. auto.
  - destruct (isGlobalVar catalog x) eqn:V; simpl in H.
    + destruct (IH _ H) as [name (Hin & R)]. exists name. simpl. auto.
    + injection H as <-. exists x. simpl. auto.
Qed.

Lemma resolve_group_throw (catalog : Catalog) (kind : string)
  (config : option ApplyRulesConfig) (printed : list string) (e : JsError) :
  resolve_group catalog kind config printed = Throw e ->
  (config = None /\
   e = TypeError "Cannot convert undefined or null to object") \/
  (exists names name,
     config = Some (NameList names) /\
     In name names /\
     isGlobalCtor catalog name = false /\
     isGlobalVar catalog name = false /\
     e = Error ("Unknown global name " ++ name)).
Proof.
  destruct config as [[names|entries]|]; simpl; intros H.
  - right. apply reduce_list_throw in H as [name R]. exists names, name. auto.
  - discriminate.
  - left. now injection H as <-.
Qed.

(** X8: setup throws one of three values and no other: the [TypeError] of
    [Object.entries(undefined)], when [constructors] or [vars] is
    [undefined] after the merge; [Error("Unknown global name N")], for a
    name [N] of a plain list that the catalog does not know; the
    [TypeError] of reading [type] on [undefined], raised while the proxy
    scripts are built. *)
Theorem setup_error_classification (catalog : Catalog)
  (_platform : option string) (options : option PluginOptions)
  (e : JsError) :
  setup catalog _platform options = Throw e ->
  (e = TypeError "Cannot convert undefined or null to object" /\
   (_constructors (merge_options options) = None \/
    _vars (merge_options options) = None)) \/
  (exists names name,
     (_constructors (merge_options options) = Some (NameList names) \/
      _vars (merge_options options) = Some (NameList names)) /\
     In name names /\
     isGlobalCtor catalog name = false /\
     isGlobalVar catalog name = false /\
     e = Error ("Unknown global name " ++ name)) \/
  e = TypeError "Cannot read properties of undefined (reading 'type')".
Proof.
  unfold setup. intros H.
  destruct (resolve_group catalog "constructor" _ []) as [cw|e1] eqn:C;
    simpl in H.
  - destruct (resolve_group catalog "variable" _ (snd cw)) as [vw|e2] eqn:V;
      simpl in H.
    + destruct (reduce (proxy_step (active_platform _platform)) _ [])
        as [pm|e3] eqn:R; simpl in H; [discriminate|].
      injection H as <-. right. right.
      now apply reduce_proxy_throws in R.
    + injection H as <-.
      apply resolve_group_throw in V
        as [[V ->]|(names & name & V & R)].
      * left. auto.
      * right. left. exists names, name. auto.
  - injection H as <-.
    apply resolve_group_throw in C as [[C ->]|(names & name & C & R)].
    + left. auto.
    + right. left. exists names, name. auto.
Qed.

Lemma setup_error_classification_witness :
  _constructors
    (merge_options
       (Some {| constructors := Undefined; vars := Absent; lib := Absent;
                pure := Absent |})) = None \/
  _vars
    (merge_options
       (Some {| constructors := Undefined; vars := Absent; lib := Absent;
                pure := Absent |})) = None.
Proof.
  destruct (setup_error_classification sampleCatalog None
              (Some {| constructors := Undefined; vars := Absent;
                       lib := Absent; pure := Absent |})
              (TypeError "Cannot convert undefined or null to object")
              eq_refl)
    as [[_ H]|[(names & name & _ & _ & _ & _ & F)|F]].
  - exact H.
  - discriminate F.
  - discriminate F.
Defined.

(** ** When the proxy scripts can be built *)

Lemma proxy_step_throw_rule (platform : string) (map : ProxyMapping)
  (entry : string * ProxyNamespaceRule) (e : JsError) :
  proxy_step platform map entry = Throw e ->
  rule (snd entry) = None \/
  exists diffs,
    rule (snd entry) = Some (Platform diffs) /\
    obj_get platform diffs = None.
Proof.
  unfold proxy_step.
  destruct (rule (snd entry)) as [[|[t members|]|diffs]|];
    try discriminate; [|auto].
  destruct (obj_get platform diffs) as [[|[t members|]]|] eqn:D;
    try discriminate.
  intros _. right. exists diffs. auto.
Qed.

Lemma reduce_proxy_throw_entry (platform : string)
  (entries : list (string * ProxyNamespaceRule)) (e : JsError) :
  forall init,
    reduce (proxy_step platform) entries init = Throw e ->
    exists entry,
      In entry entries /\
      (rule (snd entry) = None \/
       exists diffs,
         rule (snd entry) = Some (Platform diffs) /\
         obj_get platform diffs = None).
Proof.
  induction entries as [|x entries IH]; intros init H; simpl in H;
    [discriminate|].
  destruct (proxy_step platform init x) as [acc|e'] eqn:E; simpl in H.
  - destruct (IH _ H) as [entry [Hin B]]. exists entry. simpl. auto.
  - exists x. split; [simpl; auto|].
    now apply proxy_step_throw_rule in E.
Qed.

Lemma reduce_proxy_bad_entry (platform : string)
  (entries : list (string * ProxyNamespaceRule))
  (entry : string * ProxyNamespaceRule) :
  In entry entries ->
  (rule (snd entry) = None \/
   exists diffs,
     rule (snd entry) = Some (Platform diffs) /\
     obj_get platform diffs = None) ->
  forall init,
    reduce (proxy_step platform) entries init = Throw undefined_type_read.
Proof.
  intros Hin bad.
  induction entries as [|x entries IH]; intros init; simpl in *;
    [contradiction|].
  destruct (proxy_step platform init x) as [acc|e'] eqn:E; simpl.
  - destruct Hin as [->|Hin]; [|now apply IH].
    unfold proxy_step in E.
    destruct bad as [B|[diffs [B D]]]; rewrite B in E;
      try rewrite D in E; discriminate E.
  - now rewrite (proxy_step_throws _ _ _ _ E).
Qed.

(** X9: once both groups have resolved, setup throws, and then the
    [TypeError] of reading [type] on [undefined], exactly when some entry of
    the merged mapping has no rule or has a platform rule with no diff for
    the active platform; an empty or [neutral] platform is never the active
    one.  Otherwise setup succeeds and its namespaces are the merged
    mapping. *)
Theorem setup_throws_iff_unruled (catalog : Catalog)
  (_platform : option string) (options : option PluginOptions)
  (cw vw : ApplyMapping * list string) :
  resolve_group catalog "constructor"
    (_constructors (merge_options options)) [] = Ok cw ->
  resolve_group catalog "variable"
    (_vars (merge_options options)) (snd cw) = Ok vw ->
  let merged :=
    obj_assign (obj_assign (obj_assign [] (fst cw)) (fst vw))
      (match _lib (merge_options options) with Some l => l | None => [] end)
  in
  let unruled :=
    exists entry,
      In entry merged /\
      (rule (snd entry) = None \/
       exists diffs,
         rule (snd entry) = Some (Platform diffs) /\
         obj_get (active_platform _platform) diffs = None) in
  (unruled <->
   setup catalog _platform options = Throw undefined_type_read) /\
  (forall e, setup catalog _platform options = Throw e -> unruled) /\
  (forall st, setup catalog _platform options = Ok st ->
              namespaceEntries st = merged) /\
  active_platform _platform <> "" /\
  active_platform _platform <> "neutral".
Proof.
  intros C V merged unruled.
  assert (unfolded :
            setup catalog _platform options =
            (proxyMapping <-
               reduce (proxy_step (active_platform _platform)) merged [] ;;
             Ok {| namespaceEntries := merged;
                   proxyMapping := proxyMapping;
                   warnings := snd vw |})).
  { unfold setup. rewrite C. simpl. rewrite V. reflexivity. }
  assert (thrown : forall e, setup catalog _platform options = Throw e ->
                             unruled).
  { intros e H. rewrite unfolded in H.
    destruct (reduce (proxy_step (active_platform _platform)) merged [])
      as [pm|e'] eqn:R; simpl in H; [discriminate|].
    now apply reduce_proxy_throw_entry in R. }
  split; [split|split; [exact thrown|split; [|split]]].
  - intros [entry [Hin bad]]. rewrite unfolded.
    now rewrite (reduce_proxy_bad_entry _ _ _ Hin bad).
  - apply thrown.
  - intros st H. rewrite unfolded in H.
    destruct (reduce (proxy_step (active_platform _platform)) merged []);
      simpl in H; [|discriminate].
    now injection H as <-.
  - unfold active_platform. destruct _platform as [p|]; [|discriminate].
    destruct (p =? "") eqn:E; simpl; [discriminate|].
    destruct (p =? "neutral"); [discriminate|].
    now apply String.eqb_neq in E.
  - unfold active_platform. destruct _platform as [p|]; [|discriminate].
    destruct (p =? "") eqn:E; simpl; [discriminate|].
    destruct (p =? "neutral") eqn:E'; [discriminate|].
    now apply String.eqb_neq in E'.
Qed.

Lemma setup_throws_iff_unruled_witness :
  setup sampleCatalog (Some "browser")
    (Some (lib_only "process" node_only_rule)) = Throw undefined_type_read.
Proof.
  pose proof
    (setup_throws_iff_unruled sampleCatalog (Some "browser")
       (Some (lib_only "process" node_only_rule)) ([], []) ([], [])
       eq_refl eq_refl) as P.
  cbv zeta in P. destruct P as [[P _] _]. apply P.
  exists ("process", plain_entry node_only_rule).
  split; [left; reflexivity|].
  right. exists [("node", DiffNode FuncNode)]. split; reflexivity.
Defined.

(** ** The [lib] key *)

(** X11: unlike [constructors] and [vars], a [lib] key that is present with
    the value [undefined] is harmless: setup behaves as if [lib] were
    missing or the empty object. *)
Theorem undefined_lib_is_empty (catalog : Catalog)
  (_platform : option string) (o : PluginOptions) :
  lib o = Undefined \/ lib o = Absent ->
  setup catalog _platform (Some o) =
  setup catalog _platform
    (Some {| constructors := constructors o; vars := vars o;
             lib := Given []; pure := pure o |}).
Proof.
  intros [E|E]; unfold setup, merge_options; simpl; now rewrite E.
Qed.

Lemma undefined_lib_is_empty_witness :
  setup sampleCatalog None
    (Some {| constructors := Absent; vars := Absent; lib := Undefined;
             pure := Absent |}) =
  setup sampleCatalog None
    (Some {| constructors := Absent; vars := Absent; lib := Given [];
             pure := Absent |}).
Proof.
  apply (undefined_lib_is_empty sampleCatalog None
           {| constructors := Absent; vars := Absent; lib := Undefined;
              pure := Absent |}).
  left. reflexivity.
Defined.

(** ** The two plain lists *)

Lemma obj_set_fresh {V : Type} (k : string) (v : V) (o : obj V) :
  ~ In k (obj_keys o) -> obj_set k v o = (o ++ [(k, v)])%list.
Proof.
  induction o as [|[k' v'] o IH]; intros Hk; simpl; [reflexivity|].
  destruct (k =? k') eqn:E.
  - apply String.eqb_eq in E. subst. elim Hk. simpl. auto.
  - rewrite IH; [reflexivity|]. intros F. apply Hk. simpl. auto.
Qed.

Lemma obj_set_same_value {V : Type} (k : string) (v : V) (o : obj V) :
  obj_get k o = Some v -> obj_set k v o = o.
Proof.
  induction o as [|[k' v'] o IH]; simpl; [discriminate|].
  destruct (k =? k') eqn:E.
  - intros H. now injection H as ->.
  - intros H. now rewrite IH.
Qed.

Lemma obj_assign_fresh {V : Type} (source : obj V) :
  forall target,
    NoDup (obj_keys source) ->
    (forall k, In k (obj_keys source) -> ~ In k (obj_keys target)) ->
    obj_assign target source = (target ++ source)%list.
Proof.
  unfold obj_assign.
  induction source as [|[k v] source IH]; intros target nd fresh; simpl.
  - now rewrite app_nil_r.
  - inversion nd as [|? ? notin nd']; subst.
    rewrite obj_set_fresh by (apply fresh; simpl; auto).
    rewrite IH; [now rewrite <- app_assoc | exact nd'|].
    intros k' Hin F. unfold obj_keys in F. rewrite map_app in F.
    apply in_app_or in F as [F|[<-|[]]].
    + apply (fresh k'); simpl; auto.
    + contradiction.
Qed.

Lemma obj_assign_set {V : Type} (k : string) (v : V) (target source : obj V) :
  NoDup (obj_keys source) ->
  (forall v', obj_get k source = Some v' -> v' = v) ->
  obj_assign target (obj_set k v source) =
  obj_set k v (obj_assign target source).
Proof.
  intros nd same.
  destruct (obj_get k source) as [v'|] eqn:G.
  - rewrite (same v' eq_refl) in G.
    rewrite (obj_set_same_value _ _ _ G).
    symmetry. apply obj_set_same_value.
    rewrite obj_assign_get by exact nd. now rewrite G.
  - assert (notin : ~ In k (obj_keys source)).
    { intros F. apply obj_has_In in F. unfold obj_has in F.
      rewrite G in F. discriminate. }
    rewrite (obj_set_fresh _ _ _ notin).
    unfold obj_assign. now rewrite fold_left_app.
Qed.

Lemma reduce_app {A B : Type} (f : B -> A -> result B) (a b : list A) :
  forall init,
    reduce f (a ++ b)%list init =
    (acc <- reduce f a init ;; reduce f b acc).
Proof.
  induction a as [|x a IH]; intros init; simpl; [reflexivity|].
  destruct (f init x); simpl; [apply IH | reflexivity].
Qed.

Lemma reduce_list_kind (catalog : Catalog) (kind kind' : string)
  (names : list string) :
  forall st,
    reduce (list_step catalog kind) names st =
    reduce (list_step catalog kind') names st.
Proof.
  induction names as [|x names IH]; intros st; simpl; [reflexivity|].
  change (list_step catalog kind st x) with (list_step catalog kind' st x).
  destruct (list_step catalog kind' st x); simpl; [apply IH | reflexivity].
Qed.

Lemma list_step_eq (catalog : Catalog) (kind : string)
  (st : ApplyMapping * list string) (name : string) :
  list_step catalog kind st name =
  (applyRule <- defaultProxyNamespaceRule catalog name ;;
   Ok (obj_set name applyRule (fst st), snd st)).
Proof.
  reflexivity.
Qed.

(** Reducing a list of names over an accumulator gives what
    [Object.assign] gives from the accumulator and the list's own
    mapping. *)
Lemma reduce_list_over (catalog : Catalog) (kind : string)
  (names : list string) :
  forall (own acc : ApplyMapping) (w : list string),
    NoDup (obj_keys own) ->
    (forall k x, obj_get k own = Some x ->
                 defaultProxyNamespaceRule catalog k = Ok x) ->
    match reduce (list_step catalog kind) names (own, w) with
    | Ok (own', w') =>
        reduce (list_step catalog kind) names (obj_assign acc own, w) =
        Ok (obj_assign acc own', w')
    | Throw e =>
        reduce (list_step catalog kind) names (obj_assign acc own, w) =
        Throw e
    end.
Proof.
  induction names as [|x names IH]; intros own acc w nd values; simpl;
    [reflexivity|].
  rewrite !list_step_eq.
  destruct (defaultProxyNamespaceRule catalog x) as [applyRule|e] eqn:R;
    simpl; [|reflexivity].
  rewrite <- obj_assign_set.
  - apply IH; [now apply obj_set_NoDup|].
    intros k y G. destruct (String.eqb_spec x k) as [<-|ne].
    + rewrite obj_get_set_same in G. now injection G as <-.
    + rewrite obj_get_set_other in G by exact ne. now apply values.
  - exact nd.
  - intros v' G. apply values in G. congruence.
Qed.

(** X10: for plain lists, the split between [constructors] and [vars] has
    no effect: setup gives the same result, or throws the same value, when
    the names of [vars] are moved to the end of [constructors]. *)
Theorem plain_lists_interchangeable (catalog : Catalog)
  (_platform : option string) (o : PluginOptions) (a b : list string) :
  constructors o = Given (NameList a) ->
  vars o = Given (NameList b) ->
  setup catalog _platform (Some o) =
  setup catalog _platform
    (Some {| constructors := Given (NameList (a ++ b));
             vars := Given (NameList []);
             lib := lib o; pure := pure o |}).
Proof.
  intros C V. unfold setup, merge_options. simpl. rewrite C, V. simpl.
  rewrite reduce_app.
  destruct (reduce (list_step catalog "constructor") a ([], []))
    as [[c w]|e] eqn:Ra; simpl; [|reflexivity].
  destruct (reduce_list_spec _ _ _ _ _ _ _ Ra) as (-> & _).
  pose proof (resolve_group_NoDup catalog "constructor"
                (Some (NameList a)) [] (c, []) Ra) as ndc.
  simpl in ndc.
  assert (no_value : forall k x,
            obj_get k ([] : ApplyMapping) = Some x ->
            defaultProxyNamespaceRule catalog k = Ok x)
    by (intros k x F; discriminate F).
  pose proof (reduce_list_over catalog "variable" b [] c []
                (NoDup_nil _) no_value) as over.
  rewrite (reduce_list_kind catalog "constructor" "variable" b (c, [])).
  change (obj_assign c []) with c in over.
  set (from_empty := reduce (list_step catalog "variable") b ([], [])).
  set (from_c := reduce (list_step catalog "variable") b (c, [])).
  change (match from_empty with
          | Ok (own', w') => from_c = Ok (obj_assign c own', w')
          | Throw e => from_c = Throw e
          end) in over.
  destruct from_empty as [[v w]|e] eqn:Rb; rewrite over; simpl;
    [|reflexivity].
  destruct (reduce_list_spec _ _ _ _ _ _ _ Rb) as (-> & _).
  pose proof (resolve_group_NoDup catalog "variable"
                (Some (NameList b)) [] (v, []) Rb) as ndv.
  simpl in ndv.
  assert (E : obj_assign (obj_assign [] c) v =
              obj_assign [] (obj_assign c v)).
  { rewrite (obj_assign_fresh c [] ndc) by (intros k _ F; exact F).
    rewrite (obj_assign_fresh (obj_assign c v) [])
      by (try apply obj_assign_NoDup; try exact ndc; intros k _ F; exact F).
    reflexivity. }
  rewrite E. reflexivity.
Qed.

Lemma plain_lists_interchangeable_witness :
  setup sampleCatalog None
    (Some {| constructors := Given (NameList ["Object"]);
             vars := Given (NameList ["console"; "Object"]);
             lib := Absent; pure := Absent |}) =
  setup sampleCatalog None
    (Some {| constructors := Given (NameList ["Object"; "console"; "Object"]);
             vars := Given (NameList []);
             lib := Absent; pure := Absent |}).
Proof.
  apply (plain_lists_interchangeable sampleCatalog None
           {| constructors := Given (NameList ["Object"]);
              vars := Given (NameList ["console"; "Object"]);
              lib := Absent; pure := Absent |}
           ["Object"] ["console"; "Object"] eq_refl eq_refl).
Defined.

(** ** The extra code *)

(** X13: whatever the shape of its rule, the export fragment of a merged
    namespace starts with the namespace's extra code and ends with an export
    statement. *)
Theorem extra_code_leads_export_fragment (catalog : Catalog)
  (_platform : option string) (options : option PluginOptions) (st : Setup)
  (namespace : string) (r : ProxyNamespaceRule) :
  setup catalog _platform options = Ok st ->
  In (namespace, r) (namespaceEntries st) ->
  exists s body,
    obj_get namespace (proxyMapping st) = Some s /\
    proxyNamespaceExportsScript s = code r ++ body /\
    (body = "export const " ++ namespace ++ "=" ++ namespace ++ ";" \/
     exists declarations keys,
       body = declarations ++ "export {" ++ join "," keys ++ "};").
Proof.
  intros H Hin.
  destruct (setup_scripts _ _ _ _ _ H Hin) as [s [Hstep G]].
  simpl in G. exists s.
  assert (shapes :
            s = varOnly_scripts namespace (code r) (createProxyUrl namespace)
            \/ exists members,
                 s = member_scripts namespace (code r)
                       (createProxyUrl namespace) members).
  { unfold proxy_step in Hstep. simpl in Hstep.
    destruct (rule r) as [[|[t members|]|diffs]|];
      try discriminate;
      try (injection Hstep as <-; eauto).
    destruct (obj_get (active_platform _platform) diffs)
      as [[|[t members|]]|]; try discriminate;
      injection Hstep as <-; eauto. }
  destruct shapes as [->|[members ->]].
  - eexists. split; [exact G|]. split; [reflexivity|]. left. reflexivity.
  - eexists. split; [exact G|]. split; [reflexivity|].
    right. eexists. eexists. reflexivity.
Qed.

Lemma extra_code_leads_export_fragment_witness :
  exists st,
    setup sampleCatalog None (Some console_noop_mapping) = Ok st /\
    exists s body,
      obj_get "console" (proxyMapping st) = Some s /\
      proxyNamespaceExportsScript s = "" ++ body /\
      (body = "export const " ++ "console" ++ "=" ++ "console" ++ ";" \/
       exists declarations keys,
         body = declarations ++ "export {" ++ join "," keys ++ "};").
Proof.
  eexists. split; [reflexivity|].
  apply (extra_code_leads_export_fragment sampleCatalog None
           (Some console_noop_mapping) _ "console"
           {| code := ""; rule := Some Noop; applyTo := defaultApplyTo |}
           eq_refl).
  left. reflexivity.
Defined.

(** * Properties of the earlier plugin module *)

Lemma legacy_pushVars_spec (context : Legacy.GlobalContext)
  (vars : list string) :
  forall targets printed,
    Legacy.pushVars context vars (targets, printed) =
    ((targets ++
      map (fun v => (v, Legacy.property context v))
        (filter (Legacy.has_property context) vars))%list,
     (printed ++
      map (fun v => ("Unknown variable: " ++ v)%string)
        (filter (fun v => negb (Legacy.has_property context v)) vars))%list).
Proof.
  induction vars as [|v vars IH]; intros targets printed; simpl.
  - now rewrite !app_nil_r.
  - destruct (Legacy.has_property context v); simpl; rewrite IH;
      now rewrite <- !app_assoc.
Qed.

Lemma legacy_script_fold_printed (bind : option Legacy.BindOption)
  (pure : option bool) (targets : list Legacy.TargetVariables) :
  forall scripts printed,
    snd (fold_left (Legacy.script_step bind pure) targets (scripts, printed))
    = (printed ++
       map (fun t =>
              ("Skipped global variable without any enumerable property: "
                 ++ fst t)%string)
         (filter (fun t =>
                    Nat.eqb (List.length (Legacy.enumerateNames (snd t))) 0)
            targets))%list.
Proof.
  induction targets as [|t targets IH]; intros scripts printed; simpl.
  - now rewrite app_nil_r.
  - unfold Legacy.script_step at 2.
    destruct (Nat.eqb (List.length (Legacy.enumerateNames (snd t))) 0);
      simpl; rewrite IH; [now rewrite <- app_assoc | reflexivity].
Qed.

(** X14: with [vars] a list, a variable that is not [in] the global object
    is skipped with the warning [Unknown variable: v] and setup goes on:
    the export variables are those of [constructors] followed by the
    variables of [vars] the global object has, in order, and what setup
    prints is the warning about [constructors] if any, one warning per
    unknown variable, then one notice per export variable without
    names. *)
Theorem legacy_unknown_vars_skipped (browserContext nodeContext :
  Legacy.GlobalContext) (platform : option string)
  (options : option Legacy.PluginOptions) (vars : list string) :
  Legacy._vars (Legacy.merge_options options) = Some (Some vars) ->
  let context := Legacy.globalContext browserContext nodeContext platform in
  let st := Legacy.setup browserContext nodeContext platform options in
  Legacy.exportVariables st =
    (Legacy.constructorVariables context
       (Legacy._constructors (Legacy.merge_options options)) ++
     map (fun v => (v, Legacy.property context v))
       (filter (Legacy.has_property context) vars))%list /\
  Legacy.diagnostics st =
    (Legacy.constructors_warning
       (Legacy._constructors (Legacy.merge_options options)) ++
     map (fun v => ("Unknown variable: " ++ v)%string)
       (filter (fun v => negb (Legacy.has_property context v)) vars) ++
     map (fun t =>
            ("Skipped global variable without any enumerable property: "
               ++ fst t)%string)
       (filter (fun t =>
                  Nat.eqb (List.length (Legacy.enumerateNames (snd t))) 0)
          (Legacy.exportVariables st)))%list.
Proof.
  intros V context st. unfold st, Legacy.setup. simpl.
  fold context. rewrite V. rewrite legacy_pushVars_spec. simpl.
  split; [reflexivity|].
  rewrite legacy_script_fold_printed. now rewrite <- app_assoc.
Qed.

Lemma legacy_unknown_vars_skipped_witness :
  Legacy.exportVariables
    (Legacy.setup sampleContext sampleContext None (Some legacy_vars)) =
    [("Object", sampleObject); ("console", sampleConsole);
     ("document", Legacy.Falsy)] /\
  Legacy.diagnostics
    (Legacy.setup sampleContext sampleContext None (Some legacy_vars)) =
    [dquote ++ "constructors" ++ dquote ++
       " should be an array of all strings starting with upper cases.";
     "Unknown variable: nothing";
     "Skipped global variable without any enumerable property: document"].
Proof.
  exact (legacy_unknown_vars_skipped sampleContext sampleContext None
           (Some legacy_vars) ["console"; "document"; "nothing"] eq_refl).
Defined.

(** ** The names and the script of an export variable *)

Lemma legacy_enumerate_fold (isFunction : bool)
  (ownProperties : obj Legacy.PropertyDescriptor) :
  forall result name,
    In name (fold_left (Legacy.enumerate_step isFunction) ownProperties
               result) ->
    In name result \/
    exists descriptor,
      In (name, descriptor) ownProperties /\
      (isFunction = true -> ~ In name Legacy.functionProps) /\
      (forall get set,
         descriptor = Legacy.AccessorDescriptor get set ->
         get = false /\ set = false).
Proof.
  induction ownProperties as [|[key d] own IH]; intros result name H;
    simpl in H; [auto|].
  apply IH in H as [H|[descriptor (Hin & Hf & Ha)]].
  - unfold Legacy.enumerate_step in H. cbn [fst snd] in H.
    destruct (isFunction && existsb (String.eqb key) Legacy.functionProps)
      eqn:F; [now left|].
    assert (kept : In name (result ++ [key])%list ->
                   In name result \/
                   (name = key /\
                    (isFunction = true -> ~ In name Legacy.functionProps))).
    { intros K. apply in_app_or in K as [K|[<-|[]]]; [auto|].
      right. split; [reflexivity|]. intros -> Hk.
      apply existsb_eqb_In in Hk. cbn [andb] in F. congruence. }
    destruct d as [f|get set].
    + destruct (kept H) as [K|[-> Hf]]; [auto|].
      right. exists (Legacy.DataDescriptor f). simpl.
      split; [auto|]. split; [exact Hf|]. discriminate.
    + destruct (get || set) eqn:G; [auto|].
      destruct (kept H) as [K|[-> Hf]]; [auto|].
      right. exists (Legacy.AccessorDescriptor get set). simpl.
      split; [auto|]. split; [exact Hf|].
      intros g s E. injection E as <- <-.
      now apply orb_false_elim in G.
  - right. exists descriptor. simpl. auto.
Qed.

Lemma legacy_script_fold_get (bind : option Legacy.BindOption)
  (pure : option bool) (variable : string) (value : Legacy.JsValue)
  (targets : list Legacy.TargetVariables) :
  (forall value', In (variable, value') targets -> value' = value) ->
  forall scripts printed,
    obj_get variable
      (fst (fold_left (Legacy.script_step bind pure) targets
              (scripts, printed))) =
    if existsb (fun t => fst t =? variable) targets &&
       negb (Nat.eqb (List.length (Legacy.enumerateNames value)) 0)
    then Some (join ";"
                 (map (Legacy.export_statement bind pure variable value)
                    (Legacy.enumerateNames value)))
    else obj_get variable scripts.
Proof.
  induction targets as [|[v val] targets IH]; intros agree scripts printed;
    simpl; [reflexivity|].
  assert (agree' : forall value', In (variable, value') targets ->
                                  value' = value)
    by (intros value' Hin; apply agree; simpl; auto).
  unfold Legacy.script_step at 2. simpl.
  destruct (String.eqb_spec v variable) as [->|ne]; simpl.
  - rewrite (agree val) by (simpl; auto).
    destruct (Nat.eqb (List.length (Legacy.enumerateNames value)) 0) eqn:E;
      simpl; rewrite (IH agree'); simpl.
    + now rewrite andb_false_r.
    + rewrite andb_true_r, obj_get_set_same.
      now destruct (existsb (fun t : string * Legacy.JsValue =>
                               fst t =? variable) targets).
  - destruct (Nat.eqb (List.length (Legacy.enumerateNames val)) 0);
      simpl; rewrite (IH agree'); [reflexivity|].
    now rewrite obj_get_set_other by exact ne.
Qed.

Lemma legacy_listed (variable : string) (value : Legacy.JsValue)
  (targets : list Legacy.TargetVariables) :
  In (variable, value) targets ->
  existsb (fun t => fst t =? variable) targets = true.
Proof.
  intros Hin. apply existsb_exists. exists (variable, value).
  split; [exact Hin | apply String.eqb_refl].
Qed.

(** X15: an export variable with at least one name gets a module: its script
    is one [export const] statement per name, joined by [;], with the pure
    hint exactly when [pure] is [true] and [.bind(variable)] exactly when
    the member is a function and [bind] is [true] or lists
    [variable.name]; the proxy load hook serves that script for the path
    [proxyImports] imports.  A name is an own property that is not an
    accessor with a getter or a setter, nor [length], [name] or
    [prototype] of a function. *)
Theorem legacy_script_of_variable (browserContext nodeContext :
  Legacy.GlobalContext) (inherited : string -> bool)
  (platform : option string) (options : option Legacy.PluginOptions)
  (variable : string) (value : Legacy.JsValue) :
  let st := Legacy.setup browserContext nodeContext platform options in
  let merged := Legacy.merge_options options in
  In (variable, value) (Legacy.exportVariables st) ->
  (forall value', In (variable, value') (Legacy.exportVariables st) ->
                  value' = value) ->
  Legacy.enumerateNames value <> [] ->
  let script :=
    join ";"
      (map (fun name =>
              "export const " ++ name ++ " = " ++
              (match Legacy._pure merged with
               | Some true => "/* @__PURE__ */"
               | _ => ""
               end) ++ " " ++ variable ++ "." ++ name ++
              (if Legacy.member_is_function value name &&
                  match Legacy._bind merged with
                  | Some (Legacy.BindFlag b) => b
                  | Some (Legacy.BindNames names) =>
                      existsb (String.eqb (variable ++ "." ++ name)) names
                  | None => false
                  end
               then ".bind(" ++ variable ++ ")" else ""))
         (Legacy.enumerateNames value)) in
  obj_get variable (Legacy.proxyScripts st) = Some script /\
  Legacy.onLoadProxy inherited st (proxyModule ++ variable) =
    Some {| proxy_contents := Some script; proxy_loader := js |} /\
  (forall name, In name (Legacy.enumerateNames value) ->
     exists isFunction ownProperties descriptor,
       value = Legacy.Truthy isFunction ownProperties /\
       In (name, descriptor) ownProperties /\
       (isFunction = true -> ~ In name ["length"; "name"; "prototype"]) /\
       (forall get set,
          descriptor = Legacy.AccessorDescriptor get set ->
          get = false /\ set = false)).
Proof.
  intros st merged Hin agree nonempty script.
  assert (G : obj_get variable (Legacy.proxyScripts st) = Some script).
  { unfold st, Legacy.setup. simpl.
    rewrite (legacy_script_fold_get _ _ variable value _ agree).
    rewrite (legacy_listed _ _ _ Hin).
    assert (N : Nat.eqb (List.length (Legacy.enumerateNames value)) 0
                = false)
      by (destruct (Legacy.enumerateNames value);
          [contradiction | reflexivity]).
    rewrite N. simpl. f_equal. unfold script. f_equal.
    apply map_ext. intros name. unfold Legacy.export_statement, Legacy.binds.
    cbv zeta. now rewrite !str_app_assoc. }
  split; [exact G|]. split.
  - unfold Legacy.onLoadProxy. rewrite remove_first_head.
    unfold obj_has. now rewrite G.
  - intros name Hn. destruct value as [|isFunction ownProperties];
      [contradiction|].
    simpl in Hn. apply legacy_enumerate_fold in Hn as [[]|[d R]].
    exists isFunction, ownProperties, d. auto.
Qed.

Lemma legacy_script_of_variable_witness :
  obj_get "console"
    (Legacy.proxyScripts
       (Legacy.setup sampleContext sampleContext None (Some legacy_vars))) =
  Some "export const log =  console.log.bind(console)".
Proof.
  apply (legacy_script_of_variable sampleContext sampleContext
           sampleInherited None (Some legacy_vars) "console" sampleConsole).
  - right. left. reflexivity.
  - intros value' [H|[H|[H|[]]]]; try discriminate H.
    now injection H as <-.
  - discriminate.
Defined.


